(** * SeanKD_PhotoTools: the GIF creator's frame list, history and export

    A shallow embedding of [GifCreatorApp] (MakeGif.py) and of
    [desqueeze_image] (PhotoDesqueezer.py).

    - Python integers are [Z]; [//] and [%] are [Z.div] and [Z.modulo]
      (both floor towards minus infinity, as Python does) with the
      [ZeroDivisionError] written out.
    - Python list objects live in a store: [self.images] and the snapshots
      kept on the undo and redo stacks are references into it, so that
      [self.images = old_state] aliases and [self.images.extend(...)]
      mutates whatever is aliased.
    - Python floats are IEEE-754 binary64, taken from the Standard
      Library's [SpecFloat] at precision 53 and maximal exponent 1024.
    - Qt widgets are reduced to the values the methods read and write.
    - Dialogs, codecs and the file system answer through a [World]; what
      the methods ask of them is recorded as a trace of [event]s.
    - Each slot runs to its end before the next one starts.  [create_gif]
      hands control to the event loop (its dialogs, [processEvents]); it
      is modelled for a run during which the loop delivers nothing to
      the window but the single shot that hides the progress bar: the
      statements about the state it leaves assume the play timer
      stopped. *)

From Stdlib Require Import ZArith List String Ascii Bool Lia.
From Stdlib Require Import Floats.SpecFloat.
From stdpp Require Import base list.

Local Open Scope Z_scope.

(** ** Python built-ins used by the program *)

Module Py.

Inductive exn :=
| ZeroDivisionError
| IndexError
| ValueError
| OverflowError
| OSError.

(** [a // b] *)
Definition floordiv (a b : Z) : option Z :=
  if b =? 0 then None else Some (a / b).

(** [a % b] *)
Definition mod_ (a b : Z) : option Z :=
  if b =? 0 then None else Some (a mod b).

(** Position addressed by the subscript [i] in a list of length [n]:
    negative subscripts count from the end. *)
Definition index (n : nat) (i : Z) : option nat :=
  if (0 <=? i) && (i <? Z.of_nat n) then Some (Z.to_nat i)
  else if (- Z.of_nat n <=? i) && (i <? 0) then Some (Z.to_nat (Z.of_nat n + i))
  else None.

(** [del l[i]]; [None] stands for [IndexError]. *)
Definition del {A} (l : list A) (i : Z) : option (list A) :=
  match index (length l) i with
  | Some k => Some (delete k l)
  | None => None
  end.

(** [l[i]] *)
Definition getitem {A} (l : list A) (i : Z) : option A :=
  match index (length l) i with
  | Some k => l !! k
  | None => None
  end.

(** [len(l)] *)
Definition len {A} (l : list A) : Z := Z.of_nat (length l).

Definition digit (c : ascii) : option Z :=
  let n := Z.of_nat (nat_of_ascii c) in
  if (48 <=? n) && (n <=? 57) then Some (n - 48) else None.

Fixpoint digits (acc : Z) (s : string) : option Z :=
  match s with
  | EmptyString => Some acc
  | String c s' =>
      match digit c with
      | Some d => digits (10 * acc + d) s'
      | None => None
      end
  end.

(** [int(s)] on a plain decimal numeral, the only kind of text the
    program passes (item texts of its combo boxes); [None] stands for
    [ValueError]. *)
Definition int_of_str (s : string) : option Z :=
  match s with
  | EmptyString => None
  | _ => digits 0 s
  end.

Definition lower_ascii (c : ascii) : ascii :=
  let n := nat_of_ascii c in
  if (Nat.leb 65 n && Nat.leb n 90)%bool then ascii_of_nat (n + 32) else c.

Definition upper_ascii (c : ascii) : ascii :=
  let n := nat_of_ascii c in
  if (Nat.leb 97 n && Nat.leb n 122)%bool then ascii_of_nat (n - 32) else c.

(** [s.lower()] and [s.upper()] on the ASCII letters. *)
Fixpoint lower (s : string) : string :=
  match s with
  | EmptyString => EmptyString
  | String c s' => String (lower_ascii c) (lower s')
  end.

Fixpoint upper (s : string) : string :=
  match s with
  | EmptyString => EmptyString
  | String c s' => String (upper_ascii c) (upper s')
  end.

(** [s.endswith(suffix)] *)
Definition endswith (s suffix : string) : bool :=
  let n := String.length s in
  let k := String.length suffix in
  Nat.leb k n && String.eqb (substring (n - k) k s) suffix.

(** [s[:-1]] *)
Definition drop_last (s : string) : string :=
  substring 0 (String.length s - 1) s.

(** [s.rfind(c)] for one character: its last position, or [-1]. *)
Fixpoint rfind_from (c : ascii) (s : string) (i last : Z) : Z :=
  match s with
  | EmptyString => last
  | String a s' => rfind_from c s' (i + 1) (if Ascii.eqb a c then i else last)
  end.

Definition rfind (c : ascii) (s : string) : Z := rfind_from c s 0 (-1).

Fixpoint all_dots (s : string) : bool :=
  match s with
  | EmptyString => true
  | String a s' => Ascii.eqb a "." && all_dots s'
  end.

(** [os.path.splitext(p)], where [seps] are [os.sep] and [os.altsep]
    (the slash on POSIX, the backslash and the slash on Windows): the
    path is cut at the last dot, provided this dot comes after the last
    separator and some character other than a dot stands between the
    two; else the extension is empty. *)
Definition splitext (seps : list ascii) (p : string) : string * string :=
  let sepIndex := fold_right (fun c m => Z.max (rfind c p) m) (-1) seps in
  let dotIndex := rfind "." p in
  if (sepIndex <? dotIndex)
     && negb (all_dots (substring (Z.to_nat (sepIndex + 1))
                                  (Z.to_nat (dotIndex - (sepIndex + 1))) p))
  then (substring 0 (Z.to_nat dotIndex) p,
        substring (Z.to_nat dotIndex) (String.length p - Z.to_nat dotIndex) p)
  else (p, EmptyString).

End Py.

(** ** The store of list objects *)

Abbreviation ref := nat (only parsing).
Abbreviation frames_t := (list string) (only parsing).
Abbreviation store := (list (list string)) (only parsing).

Definition deref (h : store) (r : ref) : frames_t := default [] (h !! r).

(** A new list object; its reference is the next free cell. *)
Definition alloc (h : store) (v : frames_t) : store * ref := (h ++ [v], length h).

(** [l.copy()] *)
Definition copy (h : store) (r : ref) : store * ref := alloc h (deref h r).

(** ** Widgets *)

(** [QListWidget]: the rows (each row shows the basename and the icon of
    one path) and the current row, [-1] when there is none. *)
Record ListWidget := {
  lw_items : list string;
  lw_current : Z
}.

(** [QSlider] *)
Record Slider := {
  sl_minimum : Z;
  sl_maximum : Z;
  sl_value : Z
}.

(** [QAbstractSlider.setValue]: the value is forced into the range. *)
Definition Slider_setValue (v : Z) (s : Slider) : Slider :=
  {| sl_minimum := sl_minimum s;
     sl_maximum := sl_maximum s;
     sl_value := Z.max (sl_minimum s) (Z.min v (sl_maximum s)) |}.

(** [QAbstractSlider.setRange], keeping the value inside. *)
Definition Slider_setRange (lo hi : Z) (s : Slider) : Slider :=
  let hi' := Z.max lo hi in
  {| sl_minimum := lo;
     sl_maximum := hi';
     sl_value := Z.max lo (Z.min (sl_value s) hi') |}.

(** A fresh [QSlider]: range 0..99, value 0. *)
Definition Slider_new : Slider :=
  {| sl_minimum := 0; sl_maximum := 99; sl_value := 0 |}.

Record ProgressBar := {
  pb_visible : bool;
  pb_value : Z
}.

Record Widgets := {
  preview_widget : option string;   (* path of the pixmap on display *)
  image_list : ListWidget;
  thumbnail_layout : list (string * (Z * Z));   (* path at (row, col) *)
  play_button : string;             (* its text *)
  quality_slider : Slider;
  optimize_toggle : bool;
  resolution_combo : string;        (* currentText *)
  loop_count_spin : Z;
  output_format_combo : string;     (* currentText *)
  progress_bar : ProgressBar
}.

(** ** [GifCreatorApp] *)

(** One history entry: [(action_type, old_state, new_state)]. *)
Definition action := (string * (ref * ref))%type.

Record App := {
  heap : store;
  images : ref;
  current_image_index : Z;
  fps : Z;
  is_playing : bool;
  play_timer : option Z;            (* interval in ms while active *)
  undo_stack : list action;         (* head = last appended *)
  redo_stack : list action;         (* head = last appended *)
  ui : Widgets
}.

Inductive outcome :=
| Return (st : App)
| Raise (e : Py.exn) (st : App).

(** Field updates. *)

Definition with_heap (h : store) (st : App) : App :=
  {| heap := h; images := images st; current_image_index := current_image_index st;
     fps := fps st; is_playing := is_playing st; play_timer := play_timer st;
     undo_stack := undo_stack st; redo_stack := redo_stack st; ui := ui st |}.

Definition with_images (r : ref) (st : App) : App :=
  {| heap := heap st; images := r; current_image_index := current_image_index st;
     fps := fps st; is_playing := is_playing st; play_timer := play_timer st;
     undo_stack := undo_stack st; redo_stack := redo_stack st; ui := ui st |}.

Definition with_current_image_index (i : Z) (st : App) : App :=
  {| heap := heap st; images := images st; current_image_index := i;
     fps := fps st; is_playing := is_playing st; play_timer := play_timer st;
     undo_stack := undo_stack st; redo_stack := redo_stack st; ui := ui st |}.

Definition with_fps (n : Z) (st : App) : App :=
  {| heap := heap st; images := images st; current_image_index := current_image_index st;
     fps := n; is_playing := is_playing st; play_timer := play_timer st;
     undo_stack := undo_stack st; redo_stack := redo_stack st; ui := ui st |}.

Definition with_playing (b : bool) (t : option Z) (st : App) : App :=
  {| heap := heap st; images := images st; current_image_index := current_image_index st;
     fps := fps st; is_playing := b; play_timer := t;
     undo_stack := undo_stack st; redo_stack := redo_stack st; ui := ui st |}.

Definition with_stacks (u r : list action) (st : App) : App :=
  {| heap := heap st; images := images st; current_image_index := current_image_index st;
     fps := fps st; is_playing := is_playing st; play_timer := play_timer st;
     undo_stack := u; redo_stack := r; ui := ui st |}.

Definition with_ui (w : Widgets) (st : App) : App :=
  {| heap := heap st; images := images st; current_image_index := current_image_index st;
     fps := fps st; is_playing := is_playing st; play_timer := play_timer st;
     undo_stack := undo_stack st; redo_stack := redo_stack st; ui := w |}.

Definition with_preview (p : option string) (w : Widgets) : Widgets :=
  {| preview_widget := p; image_list := image_list w;
     thumbnail_layout := thumbnail_layout w; play_button := play_button w;
     quality_slider := quality_slider w; optimize_toggle := optimize_toggle w;
     resolution_combo := resolution_combo w; loop_count_spin := loop_count_spin w;
     output_format_combo := output_format_combo w; progress_bar := progress_bar w |}.

Definition with_image_list (l : ListWidget) (w : Widgets) : Widgets :=
  {| preview_widget := preview_widget w; image_list := l;
     thumbnail_layout := thumbnail_layout w; play_button := play_button w;
     quality_slider := quality_slider w; optimize_toggle := optimize_toggle w;
     resolution_combo := resolution_combo w; loop_count_spin := loop_count_spin w;
     output_format_combo := output_format_combo w; progress_bar := progress_bar w |}.

Definition with_thumbnails (t : list (string * (Z * Z))) (w : Widgets) : Widgets :=
  {| preview_widget := preview_widget w; image_list := image_list w;
     thumbnail_layout := t; play_button := play_button w;
     quality_slider := quality_slider w; optimize_toggle := optimize_toggle w;
     resolution_combo := resolution_combo w; loop_count_spin := loop_count_spin w;
     output_format_combo := output_format_combo w; progress_bar := progress_bar w |}.

Definition with_play_button (t : string) (w : Widgets) : Widgets :=
  {| preview_widget := preview_widget w; image_list := image_list w;
     thumbnail_layout := thumbnail_layout w; play_button := t;
     quality_slider := quality_slider w; optimize_toggle := optimize_toggle w;
     resolution_combo := resolution_combo w; loop_count_spin := loop_count_spin w;
     output_format_combo := output_format_combo w; progress_bar := progress_bar w |}.

Definition with_quality_slider (s : Slider) (w : Widgets) : Widgets :=
  {| preview_widget := preview_widget w; image_list := image_list w;
     thumbnail_layout := thumbnail_layout w; play_button := play_button w;
     quality_slider := s; optimize_toggle := optimize_toggle w;
     resolution_combo := resolution_combo w; loop_count_spin := loop_count_spin w;
     output_format_combo := output_format_combo w; progress_bar := progress_bar w |}.

Definition with_options (opt : bool) (res : string) (loop : Z) (fmt : string)
    (w : Widgets) : Widgets :=
  {| preview_widget := preview_widget w; image_list := image_list w;
     thumbnail_layout := thumbnail_layout w; play_button := play_button w;
     quality_slider := quality_slider w; optimize_toggle := opt;
     resolution_combo := res; loop_count_spin := loop;
     output_format_combo := fmt; progress_bar := progress_bar w |}.

Definition with_progress_bar (p : ProgressBar) (w : Widgets) : Widgets :=
  {| preview_widget := preview_widget w; image_list := image_list w;
     thumbnail_layout := thumbnail_layout w; play_button := play_button w;
     quality_slider := quality_slider w; optimize_toggle := optimize_toggle w;
     resolution_combo := resolution_combo w; loop_count_spin := loop_count_spin w;
     output_format_combo := output_format_combo w; progress_bar := p |}.

(** The frame sequence: the contents of the list [self.images] refers to. *)
Definition frames (st : App) : frames_t := deref (heap st) (images st).

(** [__init__] followed by [init_ui]: the quality slider gets
    [setRange(1, 100)] and [setValue(85)]. *)
Definition init : App :=
  {| heap := [[]];
     images := 0%nat;
     current_image_index := 0;
     fps := 24;
     is_playing := false;
     play_timer := None;
     undo_stack := [];
     redo_stack := [];
     ui := {| preview_widget := None;
              image_list := {| lw_items := []; lw_current := -1 |};
              thumbnail_layout := [];
              play_button := "Play";
              quality_slider := Slider_setValue 85 (Slider_setRange 1 100 Slider_new);
              optimize_toggle := true;
              resolution_combo := "Original";
              loop_count_spin := 0;
              output_format_combo := "GIF";
              progress_bar := {| pb_visible := false; pb_value := 0 |} |} |}.

(** [update_thumbnail_view]: thumbnail [i] goes to row [i // 4],
    column [i % 4]. *)
Definition update_thumbnail_view (st : App) : App :=
  with_ui (with_thumbnails
             (imap (fun i p => (p, (Z.of_nat i / 4, Z.of_nat i mod 4))) (frames st))
             (ui st)) st.

(** [update_image_list]: the list widget is cleared (which leaves it
    without a current row) and refilled, one row per frame. *)
Definition update_image_list (st : App) : App :=
  update_thumbnail_view
    (with_ui (with_image_list {| lw_items := frames st; lw_current := -1 |} (ui st)) st).

(** [show_image].  [setCurrentRow] emits [itemSelectionChanged], whose
    slot [on_select_image] calls [show_image] again with the same row;
    that nested call writes the same three values and is folded in. *)
Definition show_image (index : Z) (st : App) : App :=
  if (0 <=? index) && (index <? Py.len (frames st)) then
    match frames st !! Z.to_nat index with
    | Some path =>
        let st1 := with_ui (with_preview (Some path) (ui st)) st in
        let st2 := with_current_image_index index st1 in
        with_ui (with_image_list
                   {| lw_items := lw_items (image_list (ui st2)); lw_current := index |}
                   (ui st2)) st2
    | None => st
    end
  else st.

(** [on_select_image] after the user made row [row] the selected one. *)
Definition on_select_image (row : Z) (st : App) : App :=
  if (0 <=? row) && (row <? Py.len (lw_items (image_list (ui st)))) then
    show_image row
      (with_ui (with_image_list
                  {| lw_items := lw_items (image_list (ui st)); lw_current := row |}
                  (ui st)) st)
  else st.

(** The list widget is in [InternalMove] mode ([CustomListWidget]): the
    user can drag the row [from] to the position [to], which Qt carries
    out through [super().dropEvent].  Only the widget changes,
    [self.images] keeps its order.  Which row is current afterwards is
    Qt's choice, [-1] or a row, and is given as [current]; when the
    selection changes with it, [on_select_image] runs as for a click. *)
Definition move_row (from to : nat) (current : Z) (st : App) : App :=
  let items := lw_items (image_list (ui st)) in
  match items !! from with
  | Some item =>
      if (to <? length items)%nat && (-1 <=? current) && (current <? Py.len items) then
        let rest := delete from items in
        with_ui (with_image_list
                   {| lw_items := take to rest ++ item :: drop to rest;
                      lw_current := current |}
                   (ui st)) st
      else st
  | None => st
  end.

(** [add_to_undo_stack] *)
Definition add_to_undo_stack (a : action) (st : App) : App :=
  with_stacks (a :: undo_stack st) [] st.

(** [add_images] *)
Definition add_images (files : list string) (st : App) : App :=
  let '(h1, old_images) := copy (heap st) (images st) in
  let h2 := <[images st := deref h1 (images st) ++ files]> h1 in
  let st1 := update_image_list (with_heap h2 st) in
  let st2 := show_image (Py.len (deref (heap st1) old_images)) st1 in
  let '(h3, new_images) := copy (heap st2) (images st2) in
  add_to_undo_stack ("add_images"%string, (old_images, new_images)) (with_heap h3 st2).

(** [remove_selected_frame] *)
Definition remove_selected_frame (st : App) : outcome :=
  let current_row := lw_current (image_list (ui st)) in
  if negb (current_row =? -1) then
    let '(h1, old_images) := copy (heap st) (images st) in
    match Py.del (deref h1 (images st)) current_row with
    | None => Raise Py.IndexError (with_heap h1 st)
    | Some l =>
        let h2 := <[images st := l]> h1 in
        let st1 := update_image_list (with_heap h2 st) in
        let st2 :=
          match frames st1 with
          | [] => with_ui (with_preview None (ui st1)) st1
          | _ :: _ => show_image (Z.min current_row (Py.len (frames st1) - 1)) st1
          end in
        let '(h3, new_images) := copy (heap st2) (images st2) in
        Return (add_to_undo_stack ("remove_frame"%string, (old_images, new_images))
                  (with_heap h3 st2))
    end
  else Return st.

(** [update_fps] *)
Definition update_fps (value : string) (st : App) : outcome :=
  match Py.int_of_str value with
  | Some n => Return (with_fps n st)
  | None => Raise Py.ValueError st
  end.

(** [toggle_play] *)
Definition toggle_play (st : App) : outcome :=
  if is_playing st then
    Return (with_playing (negb (is_playing st)) None
              (with_ui (with_play_button "Play" (ui st)) st))
  else
    match Py.floordiv 1000 (fps st) with
    | None => Raise Py.ZeroDivisionError st
    | Some ms =>
        Return (with_playing (negb (is_playing st)) (Some ms)
                  (with_ui (with_play_button "Pause" (ui st)) st))
    end.

(** [next_frame] *)
Definition next_frame (st : App) : outcome :=
  match Py.mod_ (current_image_index st + 1) (Py.len (frames st)) with
  | None => Raise Py.ZeroDivisionError st
  | Some i => Return (show_image i st)
  end.

(** [prev_frame] *)
Definition prev_frame (st : App) : outcome :=
  match Py.mod_ (current_image_index st - 1) (Py.len (frames st)) with
  | None => Raise Py.ZeroDivisionError st
  | Some i => Return (show_image i st)
  end.

(** [undo]: the live list becomes the very object stored in the entry. *)
Definition undo (st : App) : App :=
  match undo_stack st with
  | [] => st
  | (action_type, (old_state, new_state)) :: rest =>
      let st1 := with_stacks rest ((action_type, (old_state, new_state)) :: redo_stack st) st in
      show_image 0 (update_image_list (with_images old_state st1))
  end.

(** [redo] *)
Definition redo (st : App) : App :=
  match redo_stack st with
  | [] => st
  | (action_type, (old_state, new_state)) :: rest =>
      let st1 := with_stacks ((action_type, (old_state, new_state)) :: undo_stack st) rest st in
      show_image 0 (update_image_list (with_images new_state st1))
  end.

(** ** Floats *)

(** Python's [float] is IEEE-754 binary64. *)
Module F.

Definition prec : Z := 53.
Definition emax : Z := 1024.

(** [float(z)], correctly rounded (exact below [2^53]). *)
Definition of_int (z : Z) : spec_float := binary_normalize prec emax z 0 false.

Definition mul (x y : spec_float) : spec_float := SFmul prec emax x y.

Definition div (x y : spec_float) : spec_float := SFdiv prec emax x y.

(** The literal [1.5]. *)
Definition one_and_a_half : spec_float := binary_normalize prec emax 3 (-1) false.

(** [int(x)]: the fraction is dropped, towards zero. *)
Definition to_int (x : spec_float) : Py.exn + Z :=
  match x with
  | S754_zero _ => inr 0
  | S754_finite s m e =>
      let a := if 0 <=? e then Z.pos m * 2 ^ e else Z.pos m / 2 ^ (- e) in
      inr (if s then - a else a)
  | S754_infinity _ => inl Py.OverflowError
  | S754_nan => inl Py.ValueError
  end.

(** [a / b] on two integers below [2^53] in magnitude: the correctly
    rounded quotient; [None] stands for [ZeroDivisionError]. *)
Definition truediv (a b : Z) : option spec_float :=
  if b =? 0 then None else Some (div (of_int a) (of_int b)).

End F.

(** ** Dialogs, codecs and files *)

(** A PIL image: its mode and its [size], width first. *)
Record Img := {
  mode : string;
  size : Z * Z
}.

Inductive pyval :=
| VInt (z : Z)
| VBool (b : bool).

Inductive event :=
| QMessageBox_warning (title text : string)
| QMessageBox_information (title text : string)
| QFileDialog_getSaveFileName (caption filter : string)
| rawpy_postprocess (file_name : string) (kwargs : list (string * pyval))
| Image_open (file_name : string)
| Image_convert (to_mode : string)
| Image_resize (to_size : Z * Z)
| Image_thumbnail (bound : Z * Z)
| imageio_mimsave (output_file : string) (images : list Img) (format : string)
    (kwargs : list (string * pyval))
| QTimer_singleShot (ms : Z)
| Image_save (output_path format : string)
| subprocess_run (argv : list string)
| print_saved (output_path : string)
| print_failed (file_path : string).

Record World := {
  (* the path picked in the save dialog, empty when it is cancelled *)
  getSaveFileName : string;
  (* rawpy's imread then postprocess with the keyword arguments given,
     as an image; None: it raises *)
  rawpy_decode : string -> list (string * pyval) -> option Img;
  (* Image.open(f); None: it raises *)
  image_open : string -> option Img;
  (* the size Image.thumbnail(bound) leaves an image of the given size with *)
  thumbnail_size : Z * Z -> Z * Z -> Z * Z;
  (* whether imageio.mimsave raises *)
  mimsave_raises : bool;
  (* whether the success box of create_gif is still open when the
     one-second single-shot timer started just before it fires *)
  success_box_outlasts_timer : bool;
  (* os.sep and os.altsep *)
  os_path_seps : list ascii;
  (* whether Image.save to the given path raises *)
  image_save_raises : string -> bool;
  (* whether an exiftool executable is found; subprocess.run raises
     FileNotFoundError when it is not *)
  exiftool_found : bool
}.

(** Width handed to [Image.resize] for a source of [w] by [h] pixels and
    the target height [H]:
    [ratio = height / img.size[1]; new_width = int(img.size[0] * ratio)]. *)
Definition new_width (w h H : Z) : Py.exn + Z :=
  match F.truediv H h with
  | None => inl Py.ZeroDivisionError
  | Some ratio => F.to_int (F.mul (F.of_int w) ratio)
  end.

(** The decode step of [create_gif] for one file. *)
Definition decode (world : World) (file_name : string) : option Img * list event :=
  if Py.endswith (Py.lower file_name) ".dng" then
    (rawpy_decode world file_name [], [rawpy_postprocess file_name []])
  else
    (image_open world file_name, [Image_open file_name]).

(** The resolution step of [create_gif] for one image.  [Image.resize]
    raises [ValueError] ("height and width must be > 0") unless the
    width and the height it is asked for are both at least 1; the call
    is recorded either way. *)
Definition apply_resolution (resolution : string) (img : Img)
    : (Py.exn + Img) * list event :=
  if String.eqb resolution "Original" then (inr img, [])
  else
    match Py.int_of_str (Py.drop_last resolution) with
    | None => (inl Py.ValueError, [])
    | Some height =>
        match new_width (fst (size img)) (snd (size img)) height with
        | inl e => (inl e, [])
        | inr new_width =>
            if (1 <=? new_width) && (1 <=? height) then
              (inr {| mode := mode img; size := (new_width, height) |},
               [Image_resize (new_width, height)])
            else (inl Py.ValueError, [Image_resize (new_width, height)])
        end
    end.

(** The body of the loop of [create_gif] for the file at position [i]. *)
Definition process_frame (world : World) (st : App) (i : Z) (file_name : string)
    : (Py.exn + Img) * list event :=
  match decode world file_name with
  | (None, ev) => (inl Py.OSError, ev)
  | (Some img, ev) =>
      let '(img1, ev1) :=
        if String.eqb (mode img) "RGBA"
        then ({| mode := "RGB"; size := size img |}, [Image_convert "RGB"])
        else (img, []) in
      match apply_resolution (resolution_combo (ui st)) img1 with
      | (inl e, ev2) => (inl e, ev ++ ev1 ++ ev2)
      | (inr img2, ev2) =>
          let '(img3, ev3) :=
            if optimize_toggle (ui st)
            then ({| mode := mode img2;
                     size := thumbnail_size world (size img2) (800, 800) |},
                  [Image_thumbnail (800, 800)])
            else (img2, []) in
          (inr img3, ev ++ ev1 ++ ev2 ++ ev3)
      end
  end.

(** [progress_bar.setValue(int((i + 1) / len(self.images) * k))] *)
Definition progress (i n k : Z) : Py.exn + Z :=
  match F.truediv (i + 1) n with
  | None => inl Py.ZeroDivisionError
  | Some x => F.to_int (F.mul x (F.of_int k))
  end.

Definition set_progress (visible : bool) (v : Z) (st : App) : App :=
  with_ui (with_progress_bar {| pb_visible := visible; pb_value := v |} (ui st)) st.

(** The loop of [create_gif] from position [i] on.  [processEvents]
    hands control to the event loop: this is the loop of an export
    during which nothing is delivered to the window there, no input
    from the user and no tick of the play timer. *)
Fixpoint process_frames (world : World) (st : App) (i : Z) (files : list string)
    (acc : list Img) : option Py.exn * list Img * App * list event :=
  match files with
  | [] => (None, acc, st, [])
  | file_name :: rest =>
      match process_frame world st i file_name with
      | (inl e, ev) => (Some e, acc, st, ev)
      | (inr img, ev) =>
          match progress i (Py.len (frames st)) 50 with
          | inl e => (Some e, acc ++ [img], st, ev)
          | inr v =>
              let st1 := set_progress (pb_visible (progress_bar (ui st))) v st in
              let '(r, imgs, st2, ev') :=
                process_frames world st1 (i + 1) rest (acc ++ [img]) in
              (r, imgs, st2, ev ++ ev')
          end
      end
  end.

(** The encoder call of [create_gif]. *)
Definition mimsave_call (st : App) (output_format output_file : string)
    (imgs : list Img) : list event :=
  let loop := loop_count_spin (ui st) in
  if String.eqb output_format "gif" then
    let kwargs := [("fps", VInt (fps st)); ("loop", VInt loop)]%string in
    let kwargs :=
      if optimize_toggle (ui st)
      then kwargs ++ [("optimize", VBool true);
                      ("quality", VInt (sl_value (quality_slider (ui st))))]%string
      else kwargs in
    [imageio_mimsave output_file imgs "gif" kwargs]
  else if String.eqb output_format "webp" then
    [imageio_mimsave output_file imgs "webp"
       [("fps", VInt (fps st)); ("loop", VInt loop);
        ("quality", VInt (sl_value (quality_slider (ui st))))]%string]
  else [].

(** [create_gif].  The dialogs are modal and run the event loop while
    they are open; as in the loop, this is an export during which the
    play timer does not tick.  The one timer taken into account is the
    single shot started before the success box, which hides the progress
    bar inside the call when the box stays open that long. *)
Definition create_gif (world : World) (st : App) : outcome * list event :=
  match frames st with
  | [] =>
      (Return st,
       [QMessageBox_warning "No Images" "Please select images before creating a GIF."])
  | _ :: _ =>
      let output_format := Py.lower (output_format_combo (ui st)) in
      let file_filter :=
        (Py.upper output_format ++ " Files (" ++ "*." ++ output_format ++ ")")%string in
      let output_file := getSaveFileName world in
      let ev0 :=
        [QFileDialog_getSaveFileName ("Save " ++ Py.upper output_format)%string
           file_filter] in
      if String.eqb output_file EmptyString then (Return st, ev0)
      else
        match process_frames world (set_progress true 0 st) 0 (frames st) [] with
        | (Some e, _, st1, ev1) => (Raise e st1, ev0 ++ ev1)
        | (None, [], st1, ev1) => (Return st1, ev0 ++ ev1)
        | (None, (_ :: _) as imgs, st1, ev1) =>
            let ev2 := mimsave_call st1 output_format output_file imgs in
            if mimsave_raises world then (Raise Py.OSError st1, ev0 ++ ev1 ++ ev2)
            else
              (Return (set_progress (negb (success_box_outlasts_timer world)) 100 st1),
               ev0 ++ ev1 ++ ev2 ++
               [QTimer_singleShot 1000;
                QMessageBox_information "Success"
                  (Py.upper output_format ++ " created successfully: "
                     ++ output_file)%string])
        end
  end.

(** ** [desqueeze_image] (PhotoDesqueezer.py) *)

(** Any exception ends in the [except] branch, which prints and returns:
    a failed decode, a resize to a width or a height below 1, a failed
    save, and [subprocess.run] when there is no exiftool to run (its exit
    status is not looked at).  A call that raises is recorded before the
    failure is printed. *)
Definition desqueeze_image (world : World) (file_path : string) : list event :=
  let kwargs := [("use_camera_wb", VBool true)]%string in
  match rawpy_decode world file_path kwargs with
  | None => [rawpy_postprocess file_path kwargs; print_failed file_path]
  | Some img =>
      let '(original_width, original_height) := size img in
      match F.to_int (F.mul (F.of_int original_width) F.one_and_a_half) with
      | inl _ => [rawpy_postprocess file_path kwargs; print_failed file_path]
      | inr new_width =>
          if (1 <=? new_width) && (1 <=? original_height) then
            let '(base, ext) := Py.splitext (os_path_seps world) file_path in
            let output_path := (base ++ "-desqueezed.tiff")%string in
            let run_exiftool :=
              subprocess_run ["exiftool"; "-TagsFromFile"; file_path; "-all:all";
                              "-overwrite_original"; "-m"; output_path]%string in
            if image_save_raises world output_path then
              [rawpy_postprocess file_path kwargs;
               Image_resize (new_width, original_height);
               Image_save output_path "TIFF";
               print_failed file_path]
            else if exiftool_found world then
              [rawpy_postprocess file_path kwargs;
               Image_resize (new_width, original_height);
               Image_save output_path "TIFF";
               run_exiftool;
               print_saved output_path]
            else
              [rawpy_postprocess file_path kwargs;
               Image_resize (new_width, original_height);
               Image_save output_path "TIFF";
               run_exiftool;
               print_failed file_path]
          else
            [rawpy_postprocess file_path kwargs;
             Image_resize (new_width, original_height);
             print_failed file_path]
      end
  end.

(** ** What the user can do to the window *)

Inductive command :=
| AddImages (files : list string)      (* [add_images] *)
| RemoveSelectedFrame
| Undo
| Redo
| NextFrame
| PrevFrame
| TogglePlay
| Tick                                 (* [play_timer.timeout] *)
| SelectRow (row : Z)                  (* click on a row of the list *)
| MoveRow (from to : nat) (current : Z) (* a row of the list is dragged *)
| UpdateFps (text : string)            (* [fps_combo.currentTextChanged] *)
| SetQuality (v : Z)                   (* the quality slider is moved *)
| SetOptions (opt : bool) (res : string) (loop : Z) (fmt : string).

Definition exec (c : command) (st : App) : outcome :=
  match c with
  | AddImages files => Return (add_images files st)
  | RemoveSelectedFrame => remove_selected_frame st
  | Undo => Return (undo st)
  | Redo => Return (redo st)
  | NextFrame => next_frame st
  | PrevFrame => prev_frame st
  | TogglePlay => toggle_play st
  | Tick => match play_timer st with Some _ => next_frame st | None => Return st end
  | SelectRow row => Return (on_select_image row st)
  | MoveRow from to current => Return (move_row from to current st)
  | UpdateFps text => update_fps text st
  | SetQuality v =>
      Return (with_ui (with_quality_slider (Slider_setValue v (quality_slider (ui st)))
                         (ui st)) st)
  | SetOptions opt res loop fmt => Return (with_ui (with_options opt res loop fmt (ui st)) st)
  end.

(** A run stops at the first exception that escapes a slot. *)
Fixpoint run (cs : list command) (st : App) : outcome :=
  match cs with
  | [] => Return st
  | c :: cs' =>
      match exec c st with
      | Return st' => run cs' st'
      | Raise e st' => Raise e st'
      end
  end.

Definition reachable (st : App) : Prop := exists cs, run cs init = Return st.

(** [self.images] refers to a list object that exists. *)
Definition allocated (st : App) : Prop := (images st < length (heap st))%nat.

(** The two mutations of the frame sequence that are recorded in the
    history. *)
Inductive mutation :=
| add_images_call (files : list string)
| remove_selected_frame_call.

Definition mutate (m : mutation) (st : App) : outcome :=
  match m with
  | add_images_call files => Return (add_images files st)
  | remove_selected_frame_call => remove_selected_frame st
  end.

(** Whether the call does mutate: removal does nothing without a
    current row. *)
Definition mutates (m : mutation) (st : App) : bool :=
  match m with
  | add_images_call _ => true
  | remove_selected_frame_call => negb (lw_current (image_list (ui st)) =? -1)
  end.

(** What the specification calls rounding: the integer nearest to
    [n / d], a tie going to the even one (Python's [round]). *)
Definition spec_round_div (n d : Z) : Z :=
  let q := n / d in
  let r := n mod d in
  match 2 * r ?= d with
  | Lt => q
  | Gt => q + 1
  | Eq => if Z.even q then q else q + 1
  end.

(** ** Predicates used in the statements *)

(** The state an outcome ends in. *)
Definition final (o : outcome) : App :=
  match o with
  | Return st => st
  | Raise _ st => st
  end.

(** The references of a history entry exist. *)
Definition entry_ok (n : nat) (a : action) : Prop :=
  (fst (snd a) < n)%nat /\ (snd (snd a) < n)%nat.

Definition wf (st : App) : Prop :=
  allocated st /\
  Forall (entry_ok (length (heap st))) (undo_stack st) /\
  Forall (entry_ok (length (heap st))) (redo_stack st).

(** A slot changes [current_image_index], if at all, to a position of the
    frame sequence it leaves behind. *)
Definition index_assigned_in_range (st st' : App) : Prop :=
  current_image_index st' = current_image_index st \/
  0 <= current_image_index st' < Py.len (frames st').

(** What one pass of the loop of [create_gif] may ask of the codecs: a
    decode, a mode conversion, a resize, a thumbnail; the raw decode is
    always asked for without keyword arguments. *)
Definition frame_event (e : event) : Prop :=
  match e with
  | rawpy_postprocess _ kwargs => kwargs = []
  | Image_open _ | Image_convert _ | Image_resize _ | Image_thumbnail _ => True
  | _ => False
  end.


(** A computer on which the save dialog answers [out.gif] and every
    file decodes to a 640 by 480 RGB picture. *)
Definition example_world : World :=
  {| getSaveFileName := "out.gif";
     rawpy_decode := fun _ _ => Some {| mode := "RGB"; size := (640, 480) |};
     image_open := fun _ => Some {| mode := "RGB"; size := (640, 480) |};
     thumbnail_size := fun s _ => s;
     mimsave_raises := false;
     success_box_outlasts_timer := false;
     os_path_seps := ["/"%char];
     image_save_raises := fun _ => false;
     exiftool_found := true |}.

(** ** Further predicates *)

(** [select_images]: the file dialog answered [files]; an empty answer
    (the dialog was cancelled) adds nothing. *)
Definition select_images (files : list string) (st : App) : App :=
  match files with
  | [] => st
  | _ :: _ => add_images files st
  end.

(** The cell [update_thumbnail_view] gives to each frame. *)
Definition thumbnail_grid (l : list string) : list (string * (Z * Z)) :=
  imap (fun i p => (p, (Z.of_nat i / 4, Z.of_nat i mod 4))) l.

(** The list widget has one row for each frame, in the order of the
    frames until the user drags rows about, the current row is a row of
    the list or -1, and the thumbnail grid mirrors the frame sequence. *)
Definition widgets_in_sync (st : App) : Prop :=
  lw_items (image_list (ui st)) ≡ₚ frames st /\
  -1 <= lw_current (image_list (ui st)) < Py.len (frames st) /\
  thumbnail_layout (ui st) = thumbnail_grid (frames st).

(** The flag, the timer and the caption of the play button agree. *)
Definition player_consistent (st : App) : Prop :=
  (is_playing st = true /\ play_timer st <> None /\ play_button (ui st) = "Pause"%string) \/
  (is_playing st = false /\ play_timer st = None /\ play_button (ui st) = "Play"%string).

(** The snapshots a history entry refers to. *)
Definition old_state (a : action) : ref := fst (snd a).
Definition new_state (a : action) : ref := snd (snd a).

Definition snapshot_refs (l : list action) : list ref :=
  flat_map (fun a => [old_state a; new_state a]) l.

(** No list object is stored twice in the history, and the live list is
    not the snapshot-before of an entry that can still be undone. *)
Definition history_separated (st : App) : Prop :=
  wf st /\
  NoDup (snapshot_refs (undo_stack st ++ redo_stack st)) /\
  ~ In (images st) (map old_state (undo_stack st)).

(** What [create_gif] makes of one file, when it makes something of it. *)
Definition frame_of (world : World) (st : App) (file_name : string) (img : Img) : Prop :=
  fst (process_frame world st 0 file_name) = inr img.

(** The decode [create_gif] asks for a file: raw for [.dng] in any case
    of letters, [Image.open] otherwise. *)
Definition decode_event_of (file_name : string) (e : event) : Prop :=
  if Py.endswith (Py.lower file_name) ".dng"
  then e = rawpy_postprocess file_name []
  else e = Image_open file_name.

Definition is_decode_event (e : event) : bool :=
  match e with
  | rawpy_postprocess _ _ | Image_open _ => true
  | _ => false
  end.

Definition is_mimsave (e : event) : bool :=
  match e with
  | imageio_mimsave _ _ _ _ => true
  | _ => false
  end.

(** What [remove_selected_frame] shows once the row is deleted and [l]
    is left: nothing when [l] is empty, else the frame at
    [min(current_row, len(self.images) - 1)]. *)
Definition after_removal (row : Z) (l : list string) (s1 : App) : App :=
  match l with
  | [] => with_ui (with_preview None (ui s1)) s1
  | _ :: _ => show_image (Z.min row (Py.len l - 1)) s1
  end.

(** The save dialog [create_gif] opens, and what it does after the
    encoder has returned. *)
Definition save_dialog_event (st : App) : event :=
  QFileDialog_getSaveFileName
    ("Save " ++ Py.upper (Py.lower (output_format_combo (ui st))))%string
    (Py.upper (Py.lower (output_format_combo (ui st))) ++ " Files (" ++ "*." ++
     Py.lower (output_format_combo (ui st)) ++ ")")%string.

Definition success_events (world : World) (st : App) : list event :=
  [QTimer_singleShot 1000;
   QMessageBox_information "Success"
     (Py.upper (Py.lower (output_format_combo (ui st))) ++ " created successfully: "
        ++ getSaveFileName world)%string].

(** * Properties *)

(** ** The store *)

Lemma deref_alloc_old (h : store) (v : frames_t) (r : ref) :
  (r < length h)%nat -> deref (h ++ [v]) r = deref h r.
Proof. intros Hr. unfold deref. now rewrite lookup_app_l. Qed.

Lemma deref_alloc_new (h : store) (v : frames_t) :
  deref (h ++ [v]) (length h) = v.
Proof.
  unfold deref. rewrite lookup_app_r by lia.
  now replace (length h - length h)%nat with 0%nat by lia.
Qed.

Lemma deref_insert_eq (h : store) (v : frames_t) (r : ref) :
  (r < length h)%nat -> deref (<[r := v]> h) r = v.
Proof. intros Hr. unfold deref. now rewrite list_lookup_insert_eq. Qed.

Lemma deref_insert_ne (h : store) (v : frames_t) (r r' : ref) :
  r <> r' -> deref (<[r := v]> h) r' = deref h r'.
Proof. intros Hr. unfold deref. now rewrite list_lookup_insert_ne. Qed.

(** ** Methods that only touch widgets *)

Lemma show_image_cases (index : Z) (st : App) :
  (show_image index st = st /\ ~ (0 <= index < Py.len (frames st))) \/
  (exists path,
     0 <= index < Py.len (frames st) /\
     frames st !! Z.to_nat index = Some path /\
     show_image index st =
       with_ui (with_image_list
                  {| lw_items := lw_items (image_list (ui st)); lw_current := index |}
                  (with_preview (Some path) (ui st)))
         (with_current_image_index index st)).
Proof.
  unfold show_image.
  destruct (0 <=? index) eqn:H0; destruct (index <? Py.len (frames st)) eqn:H1; simpl;
    try (left; split; [reflexivity | lia]).
  apply Z.leb_le in H0. apply Z.ltb_lt in H1.
  destruct (frames st !! Z.to_nat index) as [path|] eqn:Hl.
  - right. exists path. repeat split; auto.
  - exfalso. apply lookup_ge_None in Hl. unfold Py.len in H1. lia.
Qed.

Lemma show_image_heap i st : heap (show_image i st) = heap st.
Proof. destruct (show_image_cases i st) as [[-> _]|(p & _ & _ & ->)]; reflexivity. Qed.

Lemma show_image_images i st : images (show_image i st) = images st.
Proof. destruct (show_image_cases i st) as [[-> _]|(p & _ & _ & ->)]; reflexivity. Qed.

Lemma show_image_undo_stack i st : undo_stack (show_image i st) = undo_stack st.
Proof. destruct (show_image_cases i st) as [[-> _]|(p & _ & _ & ->)]; reflexivity. Qed.

Lemma show_image_redo_stack i st : redo_stack (show_image i st) = redo_stack st.
Proof. destruct (show_image_cases i st) as [[-> _]|(p & _ & _ & ->)]; reflexivity. Qed.

Lemma show_image_frames i st : frames (show_image i st) = frames st.
Proof. unfold frames. now rewrite show_image_heap, show_image_images. Qed.

Lemma update_image_list_frames st : frames (update_image_list st) = frames st.
Proof. reflexivity. Qed.

Lemma frames_with_stacks u r st : frames (with_stacks u r st) = frames st.
Proof. reflexivity. Qed.

Ltac show_image_simpl :=
  rewrite ?show_image_frames, ?show_image_heap, ?show_image_images,
    ?show_image_undo_stack, ?show_image_redo_stack.

(** Dragging a row reorders the rows of the widget, if it does
    anything, and nothing else. *)
Lemma move_row_cases (from to : nat) (current : Z) (st : App) :
  move_row from to current st = st \/
  exists items,
    move_row from to current st =
      with_ui (with_image_list {| lw_items := items; lw_current := current |} (ui st)) st /\
    items ≡ₚ lw_items (image_list (ui st)) /\
    -1 <= current < Py.len (lw_items (image_list (ui st))).
Proof.
  unfold move_row.
  destruct (lw_items (image_list (ui st)) !! from) as [item|] eqn:Hl; [|now left].
  destruct (to <? _)%nat eqn:Ht; [|now left].
  destruct (-1 <=? current) eqn:H1; [|now left].
  destruct (current <? _) eqn:H2; [|now left].
  right. eexists. split; [reflexivity|]. split; [|lia].
  rewrite <- Permutation_middle.
  rewrite take_drop. symmetry. now apply delete_Permutation.
Qed.

(** ** The two mutations *)

(** What [add_images] leaves behind: the live list extended in place, and
    a new entry whose two snapshots are fresh objects. *)
Lemma add_images_spec (files : list string) (st : App) :
  allocated st ->
  let st' := add_images files st in
  let a := length (heap st) in
  images st' = images st /\
  frames st' = frames st ++ files /\
  undo_stack st' = ("add_images"%string, (a, S a)) :: undo_stack st /\
  redo_stack st' = [] /\
  deref (heap st') a = frames st /\
  deref (heap st') (S a) = frames st ++ files /\
  length (heap st') = S (S a).
Proof.
  intros Hal. unfold allocated in Hal.
  unfold add_images, copy, alloc, add_to_undo_stack.
  cbn zeta. unfold frames. simpl.
  show_image_simpl. simpl.
  set (h := heap st) in *. set (r := images st) in *.
  set (old := deref h r).
  assert (E1 : deref (h ++ [old]) r = old) by now apply deref_alloc_old.
  rewrite E1.
  set (h2 := <[r := old ++ files]> (h ++ [old])).
  assert (Hlen : length h2 = S (length h)).
  { unfold h2. rewrite length_insert, length_app. simpl. lia. }
  assert (E2 : deref h2 r = old ++ files).
  { unfold h2. apply deref_insert_eq. rewrite length_app. simpl. lia. }
  rewrite E2, Hlen.
  repeat split.
  - rewrite deref_alloc_old by lia. exact E2.
  - rewrite deref_alloc_old by lia. unfold h2.
    rewrite deref_insert_ne by lia. apply deref_alloc_new.
  - rewrite <- Hlen. apply deref_alloc_new.
  - rewrite length_app, Hlen. simpl. lia.
Qed.

(** What [remove_selected_frame] leaves behind when a row is current. *)
Lemma remove_selected_frame_spec (st : App) (l : list string) :
  allocated st ->
  lw_current (image_list (ui st)) <> -1 ->
  Py.del (frames st) (lw_current (image_list (ui st))) = Some l ->
  exists st',
    remove_selected_frame st = Return st' /\
    let a := length (heap st) in
    images st' = images st /\
    frames st' = l /\
    undo_stack st' = ("remove_frame"%string, (a, S a)) :: undo_stack st /\
    redo_stack st' = [] /\
    deref (heap st') a = frames st /\
    deref (heap st') (S a) = l /\
    length (heap st') = S (S a).
Proof.
  intros Hal Hrow Hdel. unfold allocated in Hal.
  unfold remove_selected_frame, copy, alloc.
  apply Z.eqb_neq in Hrow. rewrite Hrow. cbn [negb].
  unfold frames in Hdel.
  set (h := heap st) in *. set (r := images st) in *.
  set (old := deref h r) in *.
  assert (E1 : deref (h ++ [old]) r = old) by now apply deref_alloc_old.
  rewrite E1, Hdel.
  set (h2 := <[r := l]> (h ++ [old])).
  assert (Hlen : length h2 = S (length h)).
  { unfold h2. rewrite length_insert, length_app. simpl. lia. }
  assert (E2 : deref h2 r = l).
  { unfold h2. apply deref_insert_eq. rewrite length_app. simpl. lia. }
  eexists. split; [reflexivity|].
  cbn zeta. unfold add_to_undo_stack, frames. simpl.
  fold r. fold h2. rewrite E2.
  destruct l as [|x l']; simpl; show_image_simpl; simpl; fold r; fold h2;
    rewrite ?E2, ?Hlen.
  all: repeat split.
  all: try (rewrite deref_alloc_old by lia; exact E2).
  all: try (rewrite deref_alloc_old by lia; unfold h2;
            rewrite deref_insert_ne by lia; apply deref_alloc_new).
  all: try (rewrite <- Hlen; apply deref_alloc_new).
  all: rewrite length_app, Hlen; simpl; lia.
Qed.

(** ** Undo and redo *)

Lemma undo_top (st : App) (k : string) (o n : ref) (rest : list action) :
  undo_stack st = (k, (o, n)) :: rest ->
  heap (undo st) = heap st /\
  images (undo st) = o /\
  undo_stack (undo st) = rest /\
  redo_stack (undo st) = (k, (o, n)) :: redo_stack st.
Proof.
  intros H. unfold undo. rewrite H. show_image_simpl. simpl. auto.
Qed.

Lemma redo_top (st : App) (k : string) (o n : ref) (rest : list action) :
  redo_stack st = (k, (o, n)) :: rest ->
  heap (redo st) = heap st /\
  images (redo st) = n /\
  redo_stack (redo st) = rest /\
  undo_stack (redo st) = (k, (o, n)) :: undo_stack st.
Proof.
  intros H. unfold redo. rewrite H. show_image_simpl. simpl. auto.
Qed.

(** After a recorded mutation, [undo] shows the frames from before it and
    [redo] those from after it. *)
Lemma undo_redo_of_entry (st st1 : App) (k : string) (pre post : list string) :
  undo_stack st1 = (k, (length (heap st), S (length (heap st)))) :: undo_stack st ->
  deref (heap st1) (length (heap st)) = pre ->
  deref (heap st1) (S (length (heap st))) = post ->
  frames (undo st1) = pre /\ frames (redo (undo st1)) = post.
Proof.
  intros Hu Hpre Hpost.
  destruct (undo_top _ _ _ _ _ Hu) as (Hh & Hi & _ & Hr).
  destruct (redo_top _ _ _ _ _ Hr) as (Hh' & Hi' & _ & _).
  unfold frames. rewrite Hh', Hi', Hh, Hi. auto.
Qed.

(** C1.  From any state, after one mutation ([add_images], or a
    [remove_selected_frame] that finds a current row) [undo] restores the
    frame sequence from before the mutation, and [undo] followed by
    [redo] gives the frame sequence from after it. *)
Theorem undo_redo_inverts_mutation (st st1 : App) (m : mutation) :
  allocated st ->
  mutates m st = true ->
  mutate m st = Return st1 ->
  frames (undo st1) = frames st /\
  frames (redo (undo st1)) = frames st1.
Proof.
  intros Hal Hm Hrun. destruct m as [files|]; simpl in *.
  - injection Hrun as <-.
    destruct (add_images_spec files st Hal) as (_ & Hf & Hu & _ & Ha & Hb & _).
    rewrite Hf. eapply undo_redo_of_entry; eauto.
  - apply negb_true_iff, Z.eqb_neq in Hm.
    destruct (Py.del (frames st) (lw_current (image_list (ui st)))) as [l|] eqn:Hdel.
    + destruct (remove_selected_frame_spec st l Hal Hm Hdel)
        as (st' & Hrem & _ & Hf & Hu & _ & Ha & Hb & _).
      rewrite Hrun in Hrem. injection Hrem as <-.
      rewrite Hf. eapply undo_redo_of_entry; eauto.
    + exfalso. unfold remove_selected_frame, copy, alloc in Hrun.
      apply Z.eqb_neq in Hm. rewrite Hm in Hrun. cbn [negb] in Hrun.
      unfold allocated in Hal.
      rewrite deref_alloc_old in Hrun by assumption.
      unfold frames in Hdel. rewrite Hdel in Hrun. discriminate.
Qed.

Lemma undo_redo_inverts_mutation_witness :
  frames (undo (add_images ["a.png"; "b.png"]%string init)) = [] /\
  frames (redo (undo (add_images ["a.png"; "b.png"]%string init)))
    = ["a.png"; "b.png"]%string.
Proof.
  apply (undo_redo_inverts_mutation init (add_images ["a.png"; "b.png"]%string init)
           (add_images_call ["a.png"; "b.png"]%string)).
  - unfold allocated. simpl. lia.
  - reflexivity.
  - reflexivity.
Defined.

(** The scenario of the specification: frames A, B, C; the middle one is
    removed; [undo] brings it back; [redo] removes it again. *)
Example remove_undo_redo_scenario :
  let s0 := on_select_image 1 (add_images ["A"; "B"; "C"]%string init) in
  let s1 := final (remove_selected_frame s0) in
  frames s1 = ["A"; "C"]%string /\
  frames (undo s1) = ["A"; "B"; "C"]%string /\
  frames (redo (undo s1)) = ["A"; "C"]%string.
Proof. vm_compute. repeat split; reflexivity. Qed.

(** ** Every state the window can be in has its references allocated *)

Lemma entry_ok_mono (n n' : nat) (a : action) :
  (n <= n')%nat -> entry_ok n a -> entry_ok n' a.
Proof. unfold entry_ok. lia. Qed.

Lemma Forall_entry_ok_mono (n n' : nat) (l : list action) :
  (n <= n')%nat -> Forall (entry_ok n) l -> Forall (entry_ok n') l.
Proof.
  intros Hn H. eapply Forall_impl; [exact H|].
  intros a. now apply entry_ok_mono.
Qed.

Lemma wf_same (st st' : App) :
  heap st' = heap st -> images st' = images st ->
  undo_stack st' = undo_stack st -> redo_stack st' = redo_stack st ->
  wf st -> wf st'.
Proof. unfold wf, allocated. intros -> -> -> ->. auto. Qed.

Lemma wf_init : wf init.
Proof. unfold wf, allocated. simpl. repeat split; auto. Qed.

Lemma wf_add_images files st : wf st -> wf (add_images files st).
Proof.
  intros (Hal & Hu & Hr).
  destruct (add_images_spec files st Hal) as (Hi & _ & Hus & Hrs & _ & _ & Hlen).
  unfold wf, allocated in *. rewrite Hi, Hus, Hrs, Hlen. repeat split.
  - lia.
  - constructor.
    + unfold entry_ok. simpl. lia.
    + eapply Forall_entry_ok_mono; [|exact Hu]. lia.
  - constructor.
Qed.

Lemma wf_remove_selected_frame st st' :
  wf st -> remove_selected_frame st = Return st' -> wf st'.
Proof.
  intros (Hal & Hu & Hr) Hrun.
  destruct (Z.eq_dec (lw_current (image_list (ui st))) (-1)) as [E|E].
  - unfold remove_selected_frame in Hrun. rewrite E in Hrun. simpl in Hrun.
    injection Hrun as <-. now repeat split.
  - destruct (Py.del (frames st) (lw_current (image_list (ui st)))) as [l|] eqn:Hdel.
    + destruct (remove_selected_frame_spec st l Hal E Hdel)
        as (st2 & Hrem & Hi & _ & Hus & Hrs & _ & _ & Hlen).
      rewrite Hrun in Hrem. injection Hrem as <-.
      unfold wf, allocated in *. rewrite Hi, Hus, Hrs, Hlen. repeat split.
      * lia.
      * constructor.
        -- unfold entry_ok. simpl. lia.
        -- eapply Forall_entry_ok_mono; [|exact Hu]. lia.
      * constructor.
    + exfalso. unfold remove_selected_frame, copy, alloc in Hrun.
      apply Z.eqb_neq in E. rewrite E in Hrun. cbn [negb] in Hrun.
      unfold allocated in Hal. rewrite deref_alloc_old in Hrun by assumption.
      unfold frames in Hdel. rewrite Hdel in Hrun. discriminate.
Qed.

Lemma wf_undo st : wf st -> wf (undo st).
Proof.
  intros (Hal & Hu & Hr).
  destruct (undo_stack st) as [|[k [o n]] rest] eqn:E.
  - unfold undo. rewrite E. repeat split; auto. rewrite E. constructor.
  - destruct (undo_top _ _ _ _ _ E) as (Hh & Hi & Hus & Hrs).
    unfold wf, allocated. rewrite Hh, Hi, Hus, Hrs.
    inversion Hu as [|? ? Hhd Htl]; subst.
    repeat split; auto. apply Hhd.
Qed.

Lemma wf_redo st : wf st -> wf (redo st).
Proof.
  intros (Hal & Hu & Hr).
  destruct (redo_stack st) as [|[k [o n]] rest] eqn:E.
  - unfold redo. rewrite E. repeat split; auto. rewrite E. constructor.
  - destruct (redo_top _ _ _ _ _ E) as (Hh & Hi & Hrs & Hus).
    unfold wf, allocated. rewrite Hh, Hi, Hus, Hrs.
    inversion Hr as [|? ? Hhd Htl]; subst.
    repeat split; auto. apply Hhd.
Qed.

Lemma wf_show_image i st : wf st -> wf (show_image i st).
Proof. apply wf_same; now show_image_simpl. Qed.

Lemma wf_exec (c : command) (st st' : App) :
  wf st -> exec c st = Return st' -> wf st'.
Proof.
  intros Hwf Hrun. destruct c; simpl in Hrun.
  - injection Hrun as <-. now apply wf_add_images.
  - eapply wf_remove_selected_frame; eauto.
  - injection Hrun as <-. now apply wf_undo.
  - injection Hrun as <-. now apply wf_redo.
  - unfold next_frame in Hrun. destruct Py.mod_; [|discriminate].
    injection Hrun as <-. now apply wf_show_image.
  - unfold prev_frame in Hrun. destruct Py.mod_; [|discriminate].
    injection Hrun as <-. now apply wf_show_image.
  - unfold toggle_play in Hrun. destruct (is_playing st).
    + injection Hrun as <-. revert Hwf. now apply wf_same.
    + destruct Py.floordiv; [|discriminate].
      injection Hrun as <-. revert Hwf. now apply wf_same.
  - destruct (play_timer st).
    + unfold next_frame in Hrun. destruct Py.mod_; [|discriminate].
      injection Hrun as <-. now apply wf_show_image.
    + now injection Hrun as <-.
  - injection Hrun as <-. unfold on_select_image.
    destruct (_ && _); [|assumption].
    apply wf_show_image. revert Hwf. now apply wf_same.
  - injection Hrun as <-.
    destruct (move_row_cases from to current st) as [->|(items & -> & _)];
      [assumption|]. revert Hwf. now apply wf_same.
  - unfold update_fps in Hrun. destruct Py.int_of_str; [|discriminate].
    injection Hrun as <-. revert Hwf. now apply wf_same.
  - injection Hrun as <-. revert Hwf. now apply wf_same.
  - injection Hrun as <-. revert Hwf. now apply wf_same.
Qed.

Lemma wf_run (cs : list command) (st st' : App) :
  wf st -> run cs st = Return st' -> wf st'.
Proof.
  revert st. induction cs as [|c cs IH]; intros st Hwf Hrun; simpl in Hrun.
  - now injection Hrun as <-.
  - destruct (exec c st) as [st1|] eqn:E; [|discriminate].
    eapply IH; [|exact Hrun]. eapply wf_exec; eauto.
Qed.

Lemma reachable_wf (st : App) : reachable st -> wf st.
Proof. intros [cs Hrun]. eapply wf_run; [apply wf_init | exact Hrun]. Qed.

Lemma reachable_allocated (st : App) : reachable st -> allocated st.
Proof. intros H. apply reachable_wf in H. apply H. Qed.

(** ** Snapshots on the stacks *)

(** C2 (the code falls short of it).  After [add_images(["a"])], [undo],
    [redo], the live list is the very object stored as the snapshot-after
    of the entry on the undo stack; [add_images(["b"])] then extends that
    object in place.  The entry, still on the undo stack, now says that
    the sequence after its action was [["a"; "b"]], and a later [redo] of
    it shows two frames where the action had left one. *)
Theorem snapshot_after_mutated_by_add_after_redo :
  let s1 := add_images ["a"]%string init in
  exists (e : action) (s4 s7 : App),
    undo_stack s1 = [e] /\
    frames s1 = ["a"]%string /\
    deref (heap s1) (snd (snd e)) = ["a"]%string /\
    run [Undo; Redo; AddImages ["b"]%string] s1 = Return s4 /\
    undo_stack s4 = [("add_images"%string, (3%nat, 4%nat)); e] /\
    deref (heap s4) (snd (snd e)) = ["a"; "b"]%string /\
    run [Undo; Undo; Redo] s4 = Return s7 /\
    undo_stack s7 = [e] /\
    frames s7 = ["a"; "b"]%string.
Proof.
  simpl. eexists. eexists. eexists.
  repeat split; reflexivity.
Qed.

(** ** Stepping through an empty frame list *)

Lemma next_frame_empty (st : App) :
  frames st = [] -> next_frame st = Raise Py.ZeroDivisionError st.
Proof. intros H. unfold next_frame. now rewrite H. Qed.

Lemma prev_frame_empty (st : App) :
  frames st = [] -> prev_frame st = Raise Py.ZeroDivisionError st.
Proof. intros H. unfold prev_frame. now rewrite H. Qed.

(** C3 (the code falls short of it).  In the freshly opened window, whose
    frame list is empty, [next_frame] and [prev_frame] divide by zero,
    and [toggle_play] starts the timer and flips [is_playing]; the first
    tick of that timer divides by zero as well. *)
Theorem empty_frame_list_divides_by_zero :
  frames init = [] /\
  next_frame init = Raise Py.ZeroDivisionError init /\
  prev_frame init = Raise Py.ZeroDivisionError init /\
  exists st,
    toggle_play init = Return st /\
    st <> init /\
    is_playing st = true /\
    play_timer st = Some 41 /\
    exec Tick st = Raise Py.ZeroDivisionError st.
Proof.
  repeat split.
  eexists. repeat split; try reflexivity. discriminate.
Qed.

(** ** The playback timer *)

(** C5 (as stated, refuted).  At 24 frames per second [toggle_play]
    starts the timer with a period of 41 ms, where rounding gives 42; at
    60 it is 16 ms, where rounding gives 17. *)
Lemma toggle_play_period_not_rounded :
  (exists st,
     toggle_play init = Return st /\
     fps init = 24 /\
     play_timer st = Some 41 /\
     spec_round_div 1000 (fps init) = 42) /\
  (exists st,
     toggle_play (with_fps 60 init) = Return st /\
     play_timer st = Some 16 /\
     spec_round_div 1000 60 = 17).
Proof.
  split; eexists; repeat split; reflexivity.
Qed.

(** C5 (amended).  For a positive frame rate, [toggle_play] on a stopped
    player starts the timer with the period [1000 // fps], the largest
    whole number of milliseconds not exceeding [1000 / fps]: 41 ms at 24,
    33 ms at 30, 16 ms at 60. *)
Theorem toggle_play_period_floor (st : App) :
  0 < fps st ->
  is_playing st = false ->
  exists st',
    toggle_play st = Return st' /\
    is_playing st' = true /\
    play_timer st' = Some (1000 / fps st) /\
    fps st * (1000 / fps st) <= 1000 < fps st * (1000 / fps st + 1) /\
    (fps st = 24 -> play_timer st' = Some 41) /\
    (fps st = 30 -> play_timer st' = Some 33) /\
    (fps st = 60 -> play_timer st' = Some 16).
Proof.
  intros Hfps Hstop. unfold toggle_play, Py.floordiv. rewrite Hstop.
  destruct (fps st =? 0) eqn:E; [apply Z.eqb_eq in E; lia|].
  eexists. split; [reflexivity|]. simpl.
  repeat split.
  - apply Z.mul_div_le. lia.
  - pose proof (Z.mod_pos_bound 1000 (fps st) Hfps).
    pose proof (Z.div_mod 1000 (fps st)). lia.
  - intros ->. reflexivity.
  - intros ->. reflexivity.
  - intros ->. reflexivity.
Qed.

Lemma toggle_play_period_floor_witness :
  exists st',
    toggle_play init = Return st' /\
    is_playing st' = true /\
    play_timer st' = Some (1000 / 24) /\
    24 * (1000 / 24) <= 1000 < 24 * (1000 / 24 + 1) /\
    (24 = 24 -> play_timer st' = Some 41) /\
    (24 = 30 -> play_timer st' = Some 33) /\
    (24 = 60 -> play_timer st' = Some 16).
Proof.
  apply (toggle_play_period_floor init).
  - simpl. lia.
  - reflexivity.
Defined.

(** ** Removing a frame *)

Lemma index_in_range (n : nat) (i : Z) :
  0 <= i < Z.of_nat n -> Py.index n i = Some (Z.to_nat i).
Proof.
  intros H. unfold Py.index.
  destruct (0 <=? i) eqn:E1; [|apply Z.leb_gt in E1; lia].
  destruct (i <? Z.of_nat n) eqn:E2; [|apply Z.ltb_ge in E2; lia].
  reflexivity.
Qed.

(** C6.  With [N] frames and the current row [i] in range,
    [remove_selected_frame] leaves the [N - 1] frames obtained by
    deleting position [i]: the frames before [i] keep their positions and
    those after it move down by one.  Without a current row nothing at
    all changes. *)
Theorem remove_selected_frame_deletes_current_row (st : App) :
  allocated st ->
  let i := lw_current (image_list (ui st)) in
  (i = -1 -> remove_selected_frame st = Return st) /\
  (0 <= i < Py.len (frames st) ->
   exists st',
     remove_selected_frame st = Return st' /\
     frames st' = delete (Z.to_nat i) (frames st) /\
     Py.len (frames st') = Py.len (frames st) - 1 /\
     (forall j : nat, (j < Z.to_nat i)%nat -> frames st' !! j = frames st !! j) /\
     (forall j : nat, (Z.to_nat i <= j)%nat -> frames st' !! j = frames st !! S j)).
Proof.
  intros Hal i. split.
  - intros Hi. unfold remove_selected_frame. fold i. now rewrite Hi.
  - intros Hi.
    assert (Hdel : Py.del (frames st) i = Some (delete (Z.to_nat i) (frames st))).
    { unfold Py.del. now rewrite index_in_range. }
    destruct (remove_selected_frame_spec st _ Hal ltac:(fold i; lia) Hdel)
      as (st' & Hrem & _ & Hf & _).
    exists st'. split; [exact Hrem|]. rewrite Hf.
    unfold Py.len in *. repeat split.
    + rewrite length_delete.
      * lia.
      * apply lookup_lt_is_Some. lia.
    + intros j Hj. now apply list_lookup_delete_lt.
    + intros j Hj. now apply list_lookup_delete_ge.
Qed.

Lemma remove_selected_frame_deletes_current_row_witness :
  let st := on_select_image 1 (add_images ["a"; "b"; "c"]%string init) in
  frames st = ["a"; "b"; "c"]%string /\
  lw_current (image_list (ui st)) = 1 /\
  exists st',
    remove_selected_frame st = Return st' /\
    frames st' = ["a"; "c"]%string.
Proof.
  intros st. split; [reflexivity|]. split; [reflexivity|].
  destruct (remove_selected_frame_deletes_current_row st) as [_ H].
  - unfold allocated. simpl. lia.
  - destruct H as (st' & Hrem & Hf & _).
    + simpl. unfold Py.len. simpl. lia.
    + exists st'. split; [exact Hrem|]. rewrite Hf. reflexivity.
Defined.

(** ** The guard of [show_image] *)

Lemma show_image_index_assigned (i : Z) (st : App) :
  index_assigned_in_range st (show_image i st).
Proof.
  unfold index_assigned_in_range. rewrite show_image_frames.
  destruct (show_image_cases i st) as [[-> _]|(p & Hi & _ & ->)]; simpl; auto.
Qed.

Lemma index_assigned_same (st st' : App) :
  current_image_index st' = current_image_index st ->
  index_assigned_in_range st st'.
Proof. now left. Qed.

Lemma index_assigned_via (st st1 st' : App) :
  current_image_index st1 = current_image_index st ->
  index_assigned_in_range st1 st' ->
  index_assigned_in_range st st'.
Proof. unfold index_assigned_in_range. intros ->. auto. Qed.

Lemma add_images_index_assigned (files : list string) (st : App) :
  allocated st -> index_assigned_in_range st (add_images files st).
Proof.
  intros Hal. unfold index_assigned_in_range.
  destruct (add_images_spec files st Hal) as (_ & Hf & _). rewrite Hf.
  unfold allocated in Hal.
  unfold add_images, copy, alloc, add_to_undo_stack. cbn zeta. simpl.
  match goal with
  | |- context [show_image ?k ?s] =>
      assert (Hfs : frames s = frames st ++ files);
      [| destruct (show_image_cases k s) as [[-> _]|(p & Hk & _ & ->)];
         [left; reflexivity | right; simpl; rewrite <- Hfs; exact Hk]]
  end.
  unfold frames. simpl.
  rewrite (deref_alloc_old (heap st)) by assumption.
  apply deref_insert_eq. rewrite length_app. simpl. lia.
Qed.

Lemma remove_selected_frame_index_assigned (st : App) :
  allocated st -> index_assigned_in_range st (final (remove_selected_frame st)).
Proof.
  intros Hal.
  destruct (Z.eq_dec (lw_current (image_list (ui st))) (-1)) as [E|E].
  - unfold remove_selected_frame. rewrite E. simpl. now left.
  - destruct (Py.del (frames st) (lw_current (image_list (ui st)))) as [l|] eqn:Hdel.
    + destruct (remove_selected_frame_spec st l Hal E Hdel)
        as (st' & Hrem & _ & Hf & _).
      unfold index_assigned_in_range. rewrite Hrem. simpl. rewrite Hf.
      revert Hrem. unfold allocated in Hal.
      unfold remove_selected_frame, copy, alloc, add_to_undo_stack.
      apply Z.eqb_neq in E. rewrite E. cbn [negb].
      rewrite (deref_alloc_old (heap st)) by assumption.
      unfold frames in Hdel. rewrite Hdel. cbn zeta.
      match goal with
      | |- context [frames ?s] =>
          assert (Hfs : frames s = l);
          [ unfold frames; simpl; apply deref_insert_eq; rewrite length_app; simpl; lia
          | rewrite Hfs ]
      end.
      destruct l as [|x l'].
      * intros [= <-]. left. reflexivity.
      * match goal with
        | |- context [show_image ?k ?s] =>
            destruct (show_image_cases k s) as [[-> _]|(p & Hk & _ & ->)]
        end.
        -- intros [= <-]. left. reflexivity.
        -- intros [= <-]. right. simpl. rewrite Hfs in Hk. exact Hk.
    + unfold remove_selected_frame, copy, alloc.
      apply Z.eqb_neq in E. rewrite E. cbn [negb].
      unfold allocated in Hal. rewrite deref_alloc_old by assumption.
      unfold frames in Hdel. rewrite Hdel. simpl. now left.
Qed.

Lemma exec_index_assigned (c : command) (st : App) :
  allocated st -> index_assigned_in_range st (final (exec c st)).
Proof.
  intros Hal. destruct c; simpl.
  - now apply add_images_index_assigned.
  - now apply remove_selected_frame_index_assigned.
  - unfold undo. destruct (undo_stack st) as [|[k [o n]] rest]; [now left|].
    eapply index_assigned_via; [|apply show_image_index_assigned]. reflexivity.
  - unfold redo. destruct (redo_stack st) as [|[k [o n]] rest]; [now left|].
    eapply index_assigned_via; [|apply show_image_index_assigned]. reflexivity.
  - unfold next_frame. destruct Py.mod_; simpl;
      [apply show_image_index_assigned | now left].
  - unfold prev_frame. destruct Py.mod_; simpl;
      [apply show_image_index_assigned | now left].
  - unfold toggle_play. destruct (is_playing st); [now left|].
    destruct Py.floordiv; now left.
  - destruct (play_timer st); [|now left].
    unfold next_frame. destruct Py.mod_; simpl;
      [apply show_image_index_assigned | now left].
  - unfold on_select_image. destruct (_ && _); [|now left].
    eapply index_assigned_via; [|apply show_image_index_assigned]. reflexivity.
  - destruct (move_row_cases from to current st) as [->|(items & -> & _)]; now left.
  - unfold update_fps. destruct Py.int_of_str; now left.
  - now left.
  - now left.
Qed.

(** C10.  Outside [0, N) (so for every index when there is no frame)
    [show_image] leaves the whole state as it was: the index, the
    preview and the current row of the list included.  Inside, the index
    becomes the one asked for.  And no slot ever changes
    [current_image_index] to a value that is not a position of the frame
    sequence at that moment. *)
Theorem show_image_guard (st : App) (index : Z) :
  (~ (0 <= index < Py.len (frames st)) -> show_image index st = st) /\
  (0 <= index < Py.len (frames st) ->
   current_image_index (show_image index st) = index) /\
  (forall c : command, allocated st ->
   index_assigned_in_range st (final (exec c st))).
Proof.
  repeat split.
  - intros Hout. destruct (show_image_cases index st) as [[E _]|(p & Hi & _)];
      [exact E | contradiction].
  - intros Hin. destruct (show_image_cases index st) as [[_ Hn]|(p & _ & _ & ->)];
      [contradiction | reflexivity].
  - intros c Hal. now apply exec_index_assigned.
Qed.

Lemma show_image_guard_witness :
  let st := add_images ["a"; "b"]%string init in
  show_image 2 st = st /\
  show_image (-1) st = st /\
  show_image 0 init = init /\
  current_image_index (show_image 1 st) = 1 /\
  index_assigned_in_range st (final (exec RemoveSelectedFrame st)).
Proof.
  intros st.
  destruct (show_image_guard st 2) as (H2 & _ & _).
  destruct (show_image_guard st (-1)) as (Hm & _ & _).
  destruct (show_image_guard init 0) as (H0 & _ & _).
  destruct (show_image_guard st 1) as (_ & H1 & Hc).
  split; [|split; [|split; [|split]]].
  - apply H2. simpl. unfold Py.len. simpl. lia.
  - apply Hm. lia.
  - apply H0. simpl. unfold Py.len. simpl. lia.
  - apply H1. simpl. unfold Py.len. simpl. lia.
  - apply Hc. unfold allocated. simpl. lia.
Defined.

(** ** Export *)

Ltac break_match :=
  match goal with
  | |- context [match ?x with _ => _ end] => destruct x eqn:?
  | H : context [match ?x with _ => _ end] |- _ => destruct x eqn:?
  end.

Lemma decode_events world file_name r ev :
  decode world file_name = (r, ev) -> Forall frame_event ev.
Proof.
  unfold decode. destruct (Py.endswith _ _); intros [= <- <-];
    repeat constructor.
Qed.

Lemma apply_resolution_events resolution img r ev :
  apply_resolution resolution img = (r, ev) -> Forall frame_event ev.
Proof.
  unfold apply_resolution. repeat break_match; intros [= <- <-];
    repeat constructor.
Qed.

Lemma process_frame_events world st i file_name r ev :
  process_frame world st i file_name = (r, ev) -> Forall frame_event ev.
Proof.
  unfold process_frame.
  destruct (decode world file_name) as [[img|] ev0] eqn:Hd;
    [|intros [= <- <-]; eapply decode_events; eauto].
  apply decode_events in Hd.
  destruct (String.eqb (mode img) "RGBA"); cbn iota beta zeta.
  all: match goal with
       | |- context [apply_resolution ?a ?b] =>
           destruct (apply_resolution a b) as [[e|img2] ev2] eqn:Hr;
           apply apply_resolution_events in Hr
       end.
  all: try destruct (optimize_toggle (ui st)).
  all: intros [= <- <-].
  all: repeat first [assumption | apply Forall_app; split | constructor].
Qed.

Lemma process_frames_spec world files :
  forall st i acc r imgs st' ev,
    process_frames world st i files acc = (r, imgs, st', ev) ->
    Forall frame_event ev /\
    quality_slider (ui st') = quality_slider (ui st) /\
    optimize_toggle (ui st') = optimize_toggle (ui st) /\
    frames st' = frames st /\
    undo_stack st' = undo_stack st /\
    redo_stack st' = redo_stack st /\
    current_image_index st' = current_image_index st.
Proof.
  induction files as [|f rest IH]; intros st i acc r imgs st' ev; simpl.
  - intros [= <- <- <- <-]. repeat split; constructor.
  - destruct (process_frame world st i f) as [[e|img] ev1] eqn:Hp;
      apply process_frame_events in Hp.
    + intros [= <- <- <- <-]. repeat split; assumption.
    + destruct (progress i (Py.len (frames st)) 50) as [e|v].
      * intros [= <- <- <- <-]. repeat split; assumption.
      * destruct (process_frames world _ (i + 1) rest (acc ++ [img]))
          as [[[r2 imgs2] st2] ev2] eqn:Hrec.
        intros [= <- <- <- <-].
        apply IH in Hrec as (Hev & Hq & Ho & Hf & Hu & Hr & Hc).
        repeat split; try assumption.
        apply Forall_app. split; assumption.
Qed.



(** C7.  With no frame in the project, [create_gif] only shows the
    "No Images" warning and returns: the save dialog is not opened, no
    file is decoded, the encoder is not called (so no file is written),
    and the state is the one it started from. *)
Theorem create_gif_empty_project (world : World) (st : App) :
  frames st = [] ->
  create_gif world st =
    (Return st,
     [QMessageBox_warning "No Images" "Please select images before creating a GIF."]).
Proof. intros H. unfold create_gif. now rewrite H. Qed.

Lemma create_gif_empty_project_witness :
  create_gif example_world init =
    (Return init,
     [QMessageBox_warning "No Images" "Please select images before creating a GIF."]).
Proof. apply (create_gif_empty_project example_world init). reflexivity. Defined.

(** Every raw decode [create_gif] asks for comes without keyword
    arguments. *)
Lemma create_gif_postprocess_kwargs world st file_name kwargs :
  In (rawpy_postprocess file_name kwargs) (snd (create_gif world st)) ->
  kwargs = [].
Proof.
  unfold create_gif. destruct (frames st) as [|f0 fs] eqn:Hfr.
  - simpl. intros [H|[]]. discriminate.
  - cbn zeta. destruct (String.eqb (getSaveFileName world) EmptyString).
    + simpl. intros [H|[]]. discriminate.
    + destruct (process_frames world (set_progress true 0 st) 0 (f0 :: fs) [])
        as [[[r imgs1] st1] ev1] eqn:Hloop.
      apply process_frames_spec in Hloop as (Hev & _).
      assert (Hin : forall l,
                 (forall e, In e l -> frame_event e \/
                                      forall f k, e <> rawpy_postprocess f k) ->
                 forall e, In e (ev1 ++ l) -> frame_event e \/
                                              forall f k, e <> rawpy_postprocess f k).
      { intros l Hl e He. apply in_app_or in He as [He|He]; [|now apply Hl].
        left. rewrite Forall_forall in Hev. apply Hev. now apply list_elem_of_In. }
      assert (Hcall : forall e, In e (mimsave_call st1
                                        (Py.lower (output_format_combo (ui st)))
                                        (getSaveFileName world) imgs1) ->
                                forall f k, e <> rawpy_postprocess f k).
      { unfold mimsave_call. intros e He f k ->. revert He.
        destruct (String.eqb _ "gif");
          [destruct (optimize_toggle _)|destruct (String.eqb _ "webp")];
          simpl; intros H; repeat (destruct H as [H|H]; try discriminate H);
          contradiction. }
      assert (Hconcl : forall l,
                 (forall e, In e l -> frame_event e \/
                                      forall f k, e <> rawpy_postprocess f k) ->
                 In (rawpy_postprocess file_name kwargs) l -> kwargs = []).
      { intros l Hl H. destruct (Hl _ H) as [Hf|Hn]; [exact Hf|].
        now destruct (Hn file_name kwargs). }
      destruct r as [e|]; [|destruct imgs1 as [|im ims]];
        [| |destruct (mimsave_raises world)]; simpl;
        (intros [H|H]; [discriminate|]).
      * rewrite <- (app_nil_r ev1) in H. revert H. apply Hconcl, Hin.
        intros e0 [].
      * rewrite <- (app_nil_r ev1) in H. revert H. apply Hconcl, Hin.
        intros e0 [].
      * revert H. apply Hconcl, Hin.
        intros e0 He. right. now apply Hcall.
      * revert H. apply Hconcl, Hin.
        intros e0 He. right. apply in_app_or in He as [He|He]; [now apply Hcall|].
        destruct He as [<-|[<-|[]]]; discriminate.
Qed.

(** C8 (the code falls short of it).  Exporting a project that holds
    [shot.dng]: the raw decode is asked for with no keyword argument at
    all, so [use_camera_wb] is left at rawpy's default, while
    [desqueeze_image] asks for the same file with [use_camera_wb=True]. *)
Theorem export_raw_decode_without_camera_wb :
  let st := add_images ["shot.dng"]%string init in
  snd (create_gif example_world st) =
    [QFileDialog_getSaveFileName "Save GIF" ("GIF Files (" ++ "*.gif)");
     rawpy_postprocess "shot.dng" [];
     Image_thumbnail (800, 800);
     imageio_mimsave "out.gif" [{| mode := "RGB"; size := (640, 480) |}] "gif"
       [("fps", VInt 24); ("loop", VInt 0); ("optimize", VBool true);
        ("quality", VInt 85)];
     QTimer_singleShot 1000;
     QMessageBox_information "Success" "GIF created successfully: out.gif"]%string /\
  hd_error (desqueeze_image example_world "shot.dng") =
    Some (rawpy_postprocess "shot.dng" [("use_camera_wb", VBool true)]%string).
Proof. split; vm_compute; reflexivity. Qed.

(** ** The quality slider *)






(** ** Binary64 arithmetic

    What is needed of the Standard Library's [SpecFloat] operations at
    precision 53: converting an integer below [2^53] is exact, and a
    product or a quotient of two normal numbers is off by less than one
    unit in the last place. *)

(** The number of binary digits of a positive integer. *)
Lemma digits2_pos_size (p : positive) : digits2_pos p = Pos.size p.
Proof. induction p; simpl; congruence. Qed.

Lemma Zdigits2_log2 (z : Z) : 0 < z -> Zdigits2 z = Z.log2 z + 1.
Proof.
  destruct z as [|p|p]; try lia. intros _. simpl.
  rewrite digits2_pos_size. destruct p; simpl; lia.
Qed.

Lemma Zdigits2_unique (z d : Z) : 2 ^ (d - 1) <= z < 2 ^ d -> 0 < d -> Zdigits2 z = d.
Proof.
  intros H Hd.
  assert (0 < z). { pose proof (Z.pow_pos_nonneg 2 (d - 1)). lia. }
  rewrite Zdigits2_log2 by assumption.
  assert (E : Z.log2 z = d - 1).
  { apply Z.log2_unique; [lia|].
    replace (Z.succ (d - 1)) with d by lia. assumption. }
  lia.
Qed.

Lemma Zdigits2_bounds (z : Z) : 0 < z -> 2 ^ (Zdigits2 z - 1) <= z < 2 ^ Zdigits2 z.
Proof.
  intros H. rewrite Zdigits2_log2 by assumption.
  replace (Z.log2 z + 1 - 1) with (Z.log2 z) by lia.
  pose proof (Z.log2_spec z H). replace (Z.log2 z + 1) with (Z.succ (Z.log2 z)) by lia. lia.
Qed.

(** Shifting right drops low bits of the mantissa, whatever the round
    and sticky bits say. *)
Lemma shr_1_m (mrs : shr_record) : 0 <= shr_m mrs -> shr_m (shr_1 mrs) = shr_m mrs / 2.
Proof.
  destruct mrs as [m r s]. simpl. intros H.
  destruct m as [|p|p]; try lia; [reflexivity|].
  destruct p; simpl.
  - rewrite Pos2Z.inj_xI. apply (Z.div_unique_pos _ _ _ 1); lia.
  - rewrite Pos2Z.inj_xO. apply (Z.div_unique_pos _ _ _ 0); lia.
  - reflexivity.
Qed.

Lemma iter_pos_shr_m (p : positive) : forall mrs : shr_record,
  0 <= shr_m mrs ->
  shr_m (SpecFloat.iter_pos shr_1 p mrs) = shr_m mrs / 2 ^ Z.pos p.
Proof.
  assert (Hnn : forall mrs, 0 <= shr_m mrs -> 0 <= shr_m (shr_1 mrs)).
  { intros mrs H. rewrite shr_1_m by assumption. apply Z.div_pos; lia. }
  induction p as [p IH|p IH|]; intros mrs H; simpl SpecFloat.iter_pos.
  - assert (H1 := Hnn _ H).
    assert (H2 : 0 <= shr_m (SpecFloat.iter_pos shr_1 p (shr_1 mrs))).
    { rewrite IH by assumption. apply Z.div_pos; [assumption|]. apply Z.pow_pos_nonneg; lia. }
    rewrite IH, IH, shr_1_m by assumption.
    rewrite !Z.div_div by (try apply Z.pow_pos_nonneg; lia).
    f_equal. rewrite Pos2Z.inj_xI.
    replace (2 * Z.pos p + 1) with (1 + Z.pos p + Z.pos p) by lia.
    rewrite !Z.pow_add_r by lia. lia.
  - assert (H2 : 0 <= shr_m (SpecFloat.iter_pos shr_1 p mrs)).
    { rewrite IH by assumption. apply Z.div_pos; [assumption|]. apply Z.pow_pos_nonneg; lia. }
    rewrite IH, IH by assumption.
    rewrite !Z.div_div by (try apply Z.pow_pos_nonneg; lia).
    f_equal. rewrite <- Z.pow_add_r by lia. f_equal. lia.
  - rewrite shr_1_m by assumption. reflexivity.
Qed.

(** Rounding keeps the mantissa or adds one to it. *)
Lemma round_nearest_even_cases (m : Z) (l : location) :
  round_nearest_even m l = m \/ round_nearest_even m l = m + 1.
Proof.
  destruct l as [|[| |]]; simpl; auto. destruct (Z.even m); auto.
Qed.

Lemma loc_of_shr_record_of_loc (m : Z) (l : location) :
  loc_of_shr_record (shr_record_of_loc m l) = l.
Proof. destruct l as [|[| |]]; reflexivity. Qed.

Lemma shr_m_record_of_loc (m : Z) (l : location) : shr_m (shr_record_of_loc m l) = m.
Proof. destruct l as [|[| |]]; reflexivity. Qed.

(** Away from the subnormal range the exponent leaves 53 digits. *)
Lemma fexp_normal (e : Z) : -1074 <= e - 53 -> fexp 53 1024 e = e - 53.
Proof. intros H. unfold fexp, emin. lia. Qed.

Lemma shr_spec (mrs : shr_record) (e n : Z) :
  0 <= shr_m mrs -> 0 <= n ->
  exists mrs',
    shr mrs e n = (mrs', e + n) /\
    shr_m mrs' = shr_m mrs / 2 ^ n /\
    (n = 0 -> mrs' = mrs).
Proof.
  intros Hm Hn. destruct n as [|p|p]; try lia.
  - exists mrs. simpl. rewrite Z.add_0_r, Z.div_1_r. auto.
  - exists (SpecFloat.iter_pos shr_1 p mrs). simpl. repeat split.
    + now apply iter_pos_shr_m.
    + discriminate.
Qed.

(** Rounding a mantissa of at least 53 digits, with no underflow and no
    overflow: the result is a normal number whose value lies between
    the mantissa cut to 53 digits and its successor; when nothing has
    to be cut and the location is exact, the mantissa is kept. *)
Lemma binary_round_aux_spec (s : bool) (mx ex : Z) (lx : location) :
  0 < mx ->
  53 <= Zdigits2 mx ->
  -1074 <= Zdigits2 mx + ex - 53 ->
  Zdigits2 mx + ex - 53 < 971 ->
  exists m k,
    binary_round_aux 53 1024 s mx ex lx = S754_finite s (Z.to_pos m) (ex + k) /\
    2 ^ 52 <= m < 2 ^ 53 /\
    (k = Zdigits2 mx - 53 \/ k = Zdigits2 mx - 53 + 1) /\
    mx / 2 ^ (Zdigits2 mx - 53) * 2 ^ (Zdigits2 mx - 53) <= m * 2 ^ k /\
    m * 2 ^ k <= (mx / 2 ^ (Zdigits2 mx - 53) + 1) * 2 ^ (Zdigits2 mx - 53) /\
    (Zdigits2 mx = 53 -> lx = loc_Exact -> m = mx /\ k = 0).
Proof.
  intros Hmx Hd Hlo Hhi.
  pose proof (Zdigits2_bounds mx Hmx) as Hb.
  set (d := Zdigits2 mx) in *. set (n := d - 53).
  assert (Hn : 0 <= n) by (unfold n; lia).
  assert (Hpn : 0 < 2 ^ n) by (apply Z.pow_pos_nonneg; lia).
  assert (Hsplit : 2 ^ d = 2 ^ 53 * 2 ^ n /\ 2 ^ (d - 1) = 2 ^ 52 * 2 ^ n).
  { split; rewrite <- Z.pow_add_r by lia; f_equal; unfold n; lia. }
  destruct Hsplit as [Hd1 Hd2].
  set (m' := mx / 2 ^ n).
  assert (Hm' : 2 ^ 52 <= m' < 2 ^ 53).
  { unfold m'. split.
    - apply Z.div_le_lower_bound; lia.
    - apply Z.div_lt_upper_bound; lia. }
  unfold binary_round_aux, shr_fexp. fold d.
  rewrite fexp_normal by lia.
  replace (d + ex - 53 - ex) with n by (unfold n; lia).
  destruct (shr_spec (shr_record_of_loc mx lx) ex n) as (mrs1 & -> & Hm1 & Hex1);
    [rewrite shr_m_record_of_loc; lia | lia |].
  rewrite shr_m_record_of_loc in Hm1. fold m' in Hm1. rewrite Hm1.
  set (l1 := loc_of_shr_record mrs1).
  set (m1 := round_nearest_even m' l1).
  assert (Hm1c : m1 = m' \/ m1 = m' + 1) by apply round_nearest_even_cases.
  assert (Hm'n : m' * 2 ^ n = mx / 2 ^ n * 2 ^ n) by reflexivity.
  assert (Hexact : d = 53 -> lx = loc_Exact -> m1 = mx).
  { intros Hd53 ->. assert (n = 0) by (unfold n; lia).
    unfold m1, l1. rewrite (Hex1 H). simpl. unfold m'. rewrite H.
    now rewrite Z.pow_0_r, Z.div_1_r. }
  destruct (Z.eq_dec m1 (2 ^ 53)) as [Htop|Hnot].
  - (* the mantissa overflows into the next binade *)
    assert (Hd1' : Zdigits2 m1 = 54).
    { apply Zdigits2_unique; [|lia]. rewrite Htop. simpl. lia. }
    rewrite Hd1'. rewrite fexp_normal by lia.
    replace (54 + (ex + n) - 53 - (ex + n)) with 1 by lia.
    destruct (shr_spec (shr_record_of_loc m1 loc_Exact) (ex + n) 1) as (mrs2 & -> & Hm2 & _);
      [simpl; lia | lia |].
    simpl shr_m in Hm2. rewrite Hm2, Htop.
    change (2 ^ 53 / 2 ^ 1) with (2 ^ 52).
    change (2 ^ 52) with (Z.pos (Z.to_pos (2 ^ 52))) at 1. cbv iota beta.
    replace (ex + n + 1 <=? 1024 - 53) with true by (symmetry; apply Z.leb_le; lia).
    exists (2 ^ 52), (n + 1).
    refine (conj _ (conj _ (conj _ (conj _ (conj _ _))))).
    + f_equal. lia.
    + lia.
    + right. reflexivity.
    + rewrite Z.pow_add_r by lia. fold m'.
      change (2 ^ 1) with 2. nia.
    + rewrite Z.pow_add_r by lia. fold m'. change (2 ^ 1) with 2.
      assert (m' + 1 = 2 ^ 53) by lia. nia.
    + intros Hd53 Hl. specialize (Hexact Hd53 Hl).
      exfalso. rewrite Hd1 in Hb. assert (n = 0) by (unfold n; lia).
      rewrite H in Hb. simpl in Hb. lia.
  - assert (Hm1b : 2 ^ 52 <= m1 < 2 ^ 53) by lia.
    assert (Hd1' : Zdigits2 m1 = 53).
    { apply Zdigits2_unique; [|lia]. exact Hm1b. }
    rewrite Hd1'. rewrite fexp_normal by lia.
    replace (53 + (ex + n) - 53 - (ex + n)) with 0 by lia.
    simpl shr. 
    destruct m1 as [|pm|pm] eqn:Epm; try lia.
    simpl shr_m. cbv iota beta.
    replace (ex + n <=? 1024 - 53) with true by (symmetry; apply Z.leb_le; lia).
    exists (Z.pos pm), n.
    refine (conj _ (conj _ (conj _ (conj _ (conj _ _))))).
    + reflexivity.
    + lia.
    + left. reflexivity.
    + fold m'. nia.
    + fold m'. nia.
    + intros Hd53 Hl. split; [now apply Hexact | unfold n; lia].
Qed.

(** Aligning a mantissa to a smaller exponent multiplies it by a power
    of two. *)
Lemma Pos_iter_xO (p n : positive) : Z.pos (Pos.iter xO p n) = Z.pos p * 2 ^ Z.pos n.
Proof.
  induction n as [|n IH] using Pos.peano_ind.
  - simpl. lia.
  - rewrite Pos.iter_succ, Pos2Z.inj_xO, IH, Pos2Z.inj_succ, Z.pow_succ_r by lia. lia.
Qed.

Lemma shl_align_spec (p : positive) (ex ex' : Z) :
  ex' <= ex ->
  exists mz, shl_align p ex ex' = (mz, ex') /\ Z.pos mz = Z.pos p * 2 ^ (ex - ex').
Proof.
  intros H. unfold shl_align.
  destruct (ex' - ex) as [|d|d] eqn:E; try lia.
  - assert (ex' = ex) by lia. subst. exists p. rewrite Z.sub_diag. simpl. split; [reflexivity|lia].
  - exists (Pos.iter xO p d). split; [reflexivity|].
    rewrite Pos_iter_xO. f_equal. f_equal. lia.
Qed.

(** [float(z)] is [z] itself, normalised to 53 digits. *)
Lemma of_int_spec (z : Z) :
  0 < z < 2 ^ 53 ->
  exists a,
    0 <= a <= 52 /\
    2 ^ 52 <= z * 2 ^ a < 2 ^ 53 /\
    F.of_int z = S754_finite false (Z.to_pos (z * 2 ^ a)) (- a).
Proof.
  intros Hz. destruct z as [|p|p]; try lia.
  pose proof (Zdigits2_bounds (Z.pos p) ltac:(lia)) as Hb.
  set (d := Zdigits2 (Z.pos p)) in *.
  assert (Hd : 1 <= d <= 53).
  { split.
    - unfold d. simpl. lia.
    - destruct (Z_lt_le_dec 53 d) as [Hgt|]; [|assumption]. exfalso.
      assert (2 ^ 53 <= 2 ^ (d - 1)) by (apply Z.pow_le_mono_r; lia). lia. }
  exists (53 - d).
  assert (Hp : 0 < 2 ^ (53 - d)) by (apply Z.pow_pos_nonneg; lia).
  assert (Hr : 2 ^ 52 <= Z.pos p * 2 ^ (53 - d) < 2 ^ 53).
  { assert (E1 : 2 ^ 52 = 2 ^ (d - 1) * 2 ^ (53 - d))
      by (rewrite <- Z.pow_add_r by lia; f_equal; lia).
    assert (E2 : 2 ^ 53 = 2 ^ d * 2 ^ (53 - d))
      by (rewrite <- Z.pow_add_r by lia; f_equal; lia).
    rewrite E1, E2. split.
    - apply Z.mul_le_mono_nonneg_r; lia.
    - apply Z.mul_lt_mono_pos_r; lia. }
  split; [lia|]. split; [exact Hr|].
  unfold F.of_int, F.prec, F.emax, binary_normalize, binary_round.
  change (Z.pos (digits2_pos p)) with d.
  rewrite Z.add_0_r, fexp_normal by lia.
  destruct (shl_align_spec p 0 (d - 53)) as (mz & -> & Hmz); [lia|].
  replace (0 - (d - 53)) with (53 - d) in Hmz by lia.
  assert (Hdz : Zdigits2 (Z.pos mz) = 53).
  { apply Zdigits2_unique; [|lia]. rewrite Hmz. exact Hr. }
  destruct (binary_round_aux_spec false (Z.pos mz) (d - 53) loc_Exact)
    as (m & k & -> & _ & _ & _ & _ & Hex); try lia.
  destruct (Hex Hdz eq_refl) as [-> ->].
  rewrite Hmz. f_equal. lia.
Qed.

(** Bounds on a value bound its number of digits. *)
Lemma Zdigits2_range (z lo hi : Z) :
  0 < z -> 0 <= lo -> 2 ^ lo <= z < 2 ^ hi -> lo + 1 <= Zdigits2 z <= hi.
Proof.
  intros Hz Hlo [H1 H2].
  pose proof (Zdigits2_bounds z Hz) as [Hb1 Hb2].
  assert (0 < Zdigits2 z) by (rewrite Zdigits2_log2 by lia; pose proof (Z.log2_nonneg z); lia).
  split.
  - destruct (Z_lt_le_dec lo (Zdigits2 z)) as [|Hle]; [lia|]. exfalso.
    assert (2 ^ Zdigits2 z <= 2 ^ lo) by (apply Z.pow_le_mono_r; lia). lia.
  - destruct (Z_lt_le_dec hi (Zdigits2 z)) as [Hgt|]; [|assumption]. exfalso.
    assert (2 ^ hi <= 2 ^ (Zdigits2 z - 1)) by (apply Z.pow_le_mono_r; lia). lia.
Qed.

(** The product of two normal numbers, against the exact product of
    their mantissas: the relative error is below [2^-52]. *)
Lemma fmul_spec (mw ew mq eq : Z) :
  2 ^ 52 <= mw < 2 ^ 53 ->
  2 ^ 52 <= mq < 2 ^ 53 ->
  -1000 <= ew + eq <= 800 ->
  exists my k,
    F.mul (S754_finite false (Z.to_pos mw) ew) (S754_finite false (Z.to_pos mq) eq)
      = S754_finite false (Z.to_pos my) (ew + eq + k) /\
    2 ^ 52 <= my < 2 ^ 53 /\
    52 <= k <= 54 /\
    2 ^ 52 * (my * 2 ^ k) <= (2 ^ 52 + 1) * (mw * mq) /\
    (2 ^ 52 - 1) * (mw * mq) < 2 ^ 52 * (my * 2 ^ k).
Proof.
  intros Hw Hq He. unfold F.mul, F.prec, F.emax, SFmul. cbn [xorb].
  set (P := mw * mq).
  assert (HP : Z.pos (Z.to_pos mw * Z.to_pos mq) = P).
  { rewrite Pos2Z.inj_mul, !Z2Pos.id by lia. reflexivity. }
  rewrite HP.
  assert (HPb : 2 ^ 104 <= P < 2 ^ 106).
  { change (2 ^ 104) with (2 ^ 52 * 2 ^ 52). change (2 ^ 106) with (2 ^ 53 * 2 ^ 53).
    unfold P. nia. }
  assert (HP0 : 0 < P) by lia.
  pose proof (Zdigits2_range P 104 106 HP0 ltac:(lia) HPb) as Hd.
  pose proof (Zdigits2_bounds P HP0) as Hb.
  destruct (binary_round_aux_spec false P (ew + eq) loc_Exact)
    as (my & k & -> & Hmy & Hk & Hlo & Hhi & _); try lia.
  set (n := Zdigits2 P - 53) in *.
  assert (Hpn : 0 < 2 ^ n) by (apply Z.pow_pos_nonneg; lia).
  assert (Hsplit : 2 ^ (Zdigits2 P - 1) = 2 ^ 52 * 2 ^ n).
  { rewrite <- Z.pow_add_r by lia. f_equal. lia. }
  pose proof (Z.mod_pos_bound P (2 ^ n) Hpn) as Hmod.
  pose proof (Z.div_mod P (2 ^ n) ltac:(lia)) as Hdm.
  exists my, k. repeat split; lia.
Qed.

(** The quotient of two normal numbers, against the exact quotient
    [mH * 2^53 / mh] of their mantissas: the relative error is below
    [2^-52]. *)
Lemma fdiv_spec (mH eH mh eh : Z) :
  2 ^ 52 <= mH < 2 ^ 53 ->
  2 ^ 52 <= mh < 2 ^ 53 ->
  -1000 <= eH - eh <= 800 ->
  exists mq k,
    F.div (S754_finite false (Z.to_pos mH) eH) (S754_finite false (Z.to_pos mh) eh)
      = S754_finite false (Z.to_pos mq) (eH - eh - 53 + k) /\
    2 ^ 52 <= mq < 2 ^ 53 /\
    0 <= k <= 2 /\
    2 ^ 52 * (mq * 2 ^ k) * mh <= (2 ^ 52 + 1) * (mH * 2 ^ 53) /\
    2 ^ 52 * (mH * 2 ^ 53) < (2 ^ 52 + 1) * (mq * 2 ^ k) * mh.
Proof.
  intros HH Hh He. unfold F.div, F.prec, F.emax, SFdiv, SFdiv_core_binary. cbn [xorb].
  rewrite !Z2Pos.id by lia.
  rewrite (Zdigits2_unique mH 53), (Zdigits2_unique mh 53) by (simpl; lia).
  rewrite fexp_normal by lia.
  replace (Z.min (53 + eH - (53 + eh) - 53) (eH - eh)) with (eH - eh - 53) by lia.
  replace (eH - eh - (eH - eh - 53)) with 53 by lia.
  rewrite Z.shiftl_mul_pow2 by lia.
  set (N := mH * 2 ^ 53).
  pose proof (Z_div_mod N mh ltac:(lia)) as Hdm.
  destruct (Z.div_eucl N mh) as [Q R]. destruct Hdm as [HN HR].
  assert (HQ : 2 ^ 52 <= Q < 2 ^ 54).
  { unfold N in HN. change (2 ^ 54) with (2 * 2 ^ 53). nia. }
  assert (HQ0 : 0 < Q) by lia.
  pose proof (Zdigits2_range Q 52 54 HQ0 ltac:(lia) HQ) as Hd.
  pose proof (Zdigits2_bounds Q HQ0) as Hb.
  destruct (binary_round_aux_spec false Q (eH - eh - 53) (new_location mh R))
    as (mq & k & -> & Hmq & Hk & Hlo & Hhi & _); try lia.
  set (n := Zdigits2 Q - 53) in *.
  assert (Hpn : 0 < 2 ^ n) by (apply Z.pow_pos_nonneg; lia).
  assert (Hsplit : 2 ^ (Zdigits2 Q - 1) = 2 ^ 52 * 2 ^ n).
  { rewrite <- Z.pow_add_r by lia. f_equal. lia. }
  pose proof (Z.mod_pos_bound Q (2 ^ n) Hpn) as Hmod.
  pose proof (Z.div_mod Q (2 ^ n) ltac:(lia)) as Hdm.
  exists mq, k. split; [reflexivity|]. split; [lia|]. split; [lia|].
  set (A := mq * 2 ^ k) in *. set (Q1 := Q / 2 ^ n) in *.
  assert (HQ1 : 2 ^ 52 <= Q1).
  { unfold Q1. apply Z.div_le_lower_bound; lia. }
  assert (HU : 2 ^ 52 * A <= (2 ^ 52 + 1) * Q) by lia.
  assert (HL : 2 ^ 52 * (Q + 1) <= (2 ^ 52 + 1) * A) by nia.
  split.
  - apply Z.le_trans with ((2 ^ 52 + 1) * Q * mh).
    + replace (2 ^ 52 * A * mh) with ((2 ^ 52 * A) * mh) by ring.
      apply Z.mul_le_mono_nonneg_r; lia.
    + rewrite <- Z.mul_assoc. apply Z.mul_le_mono_nonneg_l; [lia|]. nia.
  - apply Z.lt_le_trans with (2 ^ 52 * ((Q + 1) * mh)).
    + apply Z.mul_lt_mono_pos_l; [lia|]. nia.
    + rewrite Z.mul_assoc. apply Z.mul_le_mono_nonneg_r; lia.
Qed.

(** [int(x)] of a positive [x = m * 2^(T - S)] is the floor of [x]. *)
Lemma to_int_floor (m e S T : Z) :
  0 < m -> 0 <= S -> 0 <= T -> e = T - S ->
  exists r,
    F.to_int (S754_finite false (Z.to_pos m) e) = inr r /\
    r * 2 ^ S <= m * 2 ^ T < (r + 1) * 2 ^ S.
Proof.
  intros Hm HS HT ->. unfold F.to_int. rewrite Z2Pos.id by lia.
  assert (HpS : 0 < 2 ^ S) by (apply Z.pow_pos_nonneg; lia).
  destruct (0 <=? T - S) eqn:E.
  - apply Z.leb_le in E. eexists. split; [reflexivity|].
    assert (Eq : m * 2 ^ T = m * 2 ^ (T - S) * 2 ^ S).
    { rewrite <- Z.mul_assoc, <- Z.pow_add_r by lia. do 2 f_equal. lia. }
    rewrite Eq. lia.
  - apply Z.leb_gt in E. eexists. split; [reflexivity|].
    replace (- (T - S)) with (S - T) by lia.
    assert (Hp : 0 < 2 ^ (S - T)) by (apply Z.pow_pos_nonneg; lia).
    assert (HpT : 0 < 2 ^ T) by (apply Z.pow_pos_nonneg; lia).
    assert (Eq : 2 ^ S = 2 ^ (S - T) * 2 ^ T).
    { rewrite <- Z.pow_add_r by lia. f_equal. lia. }
    pose proof (Z.div_mod m (2 ^ (S - T)) ltac:(lia)) as Hdm.
    pose proof (Z.mod_pos_bound m (2 ^ (S - T)) Hp) as Hmod.
    rewrite Eq. nia.
Qed.

(** The two upper error bounds, chained. *)
Lemma upper_chain (B K1 mw mq mh mH : Z) :
  0 <= K1 -> 0 <= mh -> 0 <= mw ->
  2 ^ 52 * B <= (2 ^ 52 + 1) * (mw * mq) ->
  2 ^ 52 * (mq * K1) * mh <= (2 ^ 52 + 1) * (mH * 2 ^ 53) ->
  2 ^ 104 * (B * K1 * mh) <= (2 ^ 52 + 1) * (2 ^ 52 + 1) * (mw * mH * 2 ^ 53).
Proof.
  intros HK Hh Hw U1 U2.
  pose proof (Z.mul_le_mono_nonneg_r _ _ (2 ^ 52 * K1 * mh) ltac:(nia) U1) as H1.
  pose proof (Z.mul_le_mono_nonneg_l _ _ ((2 ^ 52 + 1) * mw) ltac:(nia) U2) as H2.
  change (2 ^ 104) with (2 ^ 52 * 2 ^ 52).
  lia.
Qed.

(** The two lower error bounds, chained. *)
Lemma lower_chain (B K1 mw mq mh mH : Z) :
  0 < K1 -> 0 < mh -> 0 < mw ->
  (2 ^ 52 - 1) * (mw * mq) < 2 ^ 52 * B ->
  2 ^ 52 * (mH * 2 ^ 53) < (2 ^ 52 + 1) * (mq * K1) * mh ->
  (2 ^ 52 - 1) * (mw * mH * 2 ^ 53) < (2 ^ 52 + 1) * (B * K1 * mh).
Proof.
  intros HK Hh Hw L1 L2.
  assert (P1 : 0 < (2 ^ 52 + 1) * K1 * mh) by nia.
  assert (P2 : 0 < (2 ^ 52 - 1) * mw) by nia.
  apply (Z.mul_lt_mono_pos_r _ _ _ P1) in L1.
  apply (Z.mul_lt_mono_pos_l _ _ _ P2) in L2.
  lia.
Qed.

(** [int(w * (H / h))] is [H * w / h] with its fraction dropped, or one
    less when the two roundings leave the product just below a whole
    number. *)
Lemma new_width_bounds (w h H : Z) :
  0 < w -> 0 < h < 2 ^ 53 -> 0 < H -> H * w < 2 ^ 50 ->
  exists r, new_width w h H = inr r /\ H * w - h <= h * r <= H * w.
Proof.
  intros Hw Hh HH Hbound.
  assert (Hw53 : 0 < w < 2 ^ 53) by nia.
  assert (HH53 : 0 < H < 2 ^ 53) by nia.
  unfold new_width, F.truediv.
  destruct (h =? 0) eqn:E; [apply Z.eqb_eq in E; lia|].
  destruct (of_int_spec w Hw53) as (a & Ha & Hmw & ->).
  destruct (of_int_spec H HH53) as (b & Hb & HmH & ->).
  destruct (of_int_spec h Hh) as (c & Hc & Hmh & ->).
  destruct (fdiv_spec (H * 2 ^ b) (- b) (h * 2 ^ c) (- c) HmH Hmh ltac:(lia))
    as (mq & k1 & -> & Hmq & Hk1 & U2 & L2).
  destruct (fmul_spec (w * 2 ^ a) (- a) mq (- b - - c - 53 + k1) Hmw Hmq ltac:(lia))
    as (my & k2 & -> & Hmy & Hk2 & U1 & L1).
  destruct (to_int_floor my (- a + (- b - - c - 53 + k1) + k2) (a + b + 53) (c + k1 + k2))
    as (r & -> & Hr1 & Hr2); try lia.
  exists r. split; [reflexivity|].
  assert (Hpa : 0 < 2 ^ a) by (apply Z.pow_pos_nonneg; lia).
  assert (Hpb : 0 < 2 ^ b) by (apply Z.pow_pos_nonneg; lia).
  assert (Hpc : 0 < 2 ^ c) by (apply Z.pow_pos_nonneg; lia).
  assert (Hpk1 : 0 < 2 ^ k1) by (apply Z.pow_pos_nonneg; lia).
  assert (Hpk2 : 0 < 2 ^ k2) by (apply Z.pow_pos_nonneg; lia).
  assert (ES : 2 ^ (a + b + 53) = 2 ^ a * 2 ^ b * 2 ^ 53).
  { rewrite !Z.pow_add_r by lia. reflexivity. }
  assert (ET : 2 ^ (c + k1 + k2) = 2 ^ c * 2 ^ k1 * 2 ^ k2).
  { rewrite !Z.pow_add_r by lia. reflexivity. }
  rewrite ES, ET in *.
  pose proof (upper_chain (my * 2 ^ k2) (2 ^ k1) (w * 2 ^ a) mq (h * 2 ^ c) (H * 2 ^ b)
                ltac:(lia) ltac:(lia) ltac:(lia) U1 U2) as HU.
  pose proof (lower_chain (my * 2 ^ k2) (2 ^ k1) (w * 2 ^ a) mq (h * 2 ^ c) (H * 2 ^ b)
                Hpk1 ltac:(lia) ltac:(lia) L1 L2) as HL.
  set (pS := 2 ^ a * 2 ^ b * 2 ^ 53) in *.
  assert (HpS : 0 < pS) by (unfold pS; nia).
  set (Y := my * (2 ^ c * 2 ^ k1 * 2 ^ k2)) in *.
  assert (HU' : 2 ^ 104 * (Y * h) <= (2 ^ 52 + 1) * (2 ^ 52 + 1) * ((H * w) * pS)).
  { replace (2 ^ 104 * (Y * h)) with (2 ^ 104 * (my * 2 ^ k2 * 2 ^ k1 * (h * 2 ^ c)))
      by (unfold Y; ring).
    replace ((2 ^ 52 + 1) * (2 ^ 52 + 1) * ((H * w) * pS))
      with ((2 ^ 52 + 1) * (2 ^ 52 + 1) * (w * 2 ^ a * (H * 2 ^ b) * 2 ^ 53))
      by (unfold pS; ring).
    exact HU. }
  assert (HL' : (2 ^ 52 - 1) * ((H * w) * pS) < (2 ^ 52 + 1) * (Y * h)).
  { replace ((2 ^ 52 + 1) * (Y * h)) with ((2 ^ 52 + 1) * (my * 2 ^ k2 * 2 ^ k1 * (h * 2 ^ c)))
      by (unfold Y; ring).
    replace ((2 ^ 52 - 1) * ((H * w) * pS))
      with ((2 ^ 52 - 1) * (w * 2 ^ a * (H * 2 ^ b) * 2 ^ 53))
      by (unfold pS; ring).
    exact HL. }
  clearbody Y pS. clear - Hw Hh HH Hbound HpS Hr1 Hr2 HU' HL'.
  assert (HY0 : 0 <= Y * h) by nia.
  assert (Hup : 2 ^ 104 * (h * r) * pS <= (2 ^ 52 + 1) * (2 ^ 52 + 1) * (H * w) * pS).
  { apply Z.le_trans with (2 ^ 104 * (Y * h)); [|lia].
    replace (2 ^ 104 * (h * r) * pS) with (2 ^ 104 * ((r * pS) * h)) by ring.
    apply Z.mul_le_mono_nonneg_l; [lia|].
    apply Z.mul_le_mono_nonneg_r; lia. }
  apply Z.mul_le_mono_pos_r in Hup; [|assumption].
  assert (Hdn : (2 ^ 52 - 1) * (H * w) * pS < (2 ^ 52 + 1) * (h * (r + 1)) * pS).
  { apply Z.lt_le_trans with ((2 ^ 52 + 1) * (Y * h)); [lia|].
    replace ((2 ^ 52 + 1) * (h * (r + 1)) * pS) with ((2 ^ 52 + 1) * (((r + 1) * pS) * h)) by ring.
    apply Z.mul_le_mono_nonneg_l; [lia|].
    apply Z.mul_le_mono_nonneg_r; lia. }
  apply Z.mul_lt_mono_pos_r in Hdn; [|assumption].
  change (2 ^ 104) with 20282409603651670423947251286016 in Hup.
  change (2 ^ 52) with 4503599627370496 in *.
  change (2 ^ 50) with 1125899906842624 in *.
  lia.
Qed.

(** ** The resolution step of the export *)




(** A source one pixel wide and 2000 high exported at "360p": the width
    asked for is 0 and the resize raises. *)
Example resize_to_zero_width_raises :
  apply_resolution "360p" {| mode := "RGB"; size := (1, 2000) |} =
    (inl Py.ValueError, [Image_resize (0, 360)]).
Proof. vm_compute. reflexivity. Qed.

(** * Further properties *)

(** ** Appending frames *)

Lemma add_images_ui (files : list string) (st : App) :
  allocated st ->
  ui (add_images files st) =
    ui (show_image (Py.len (frames st))
          (update_image_list (with_heap (<[images st := frames st ++ files]>
                                           (heap st ++ [frames st])) st))) /\
  current_image_index (add_images files st) =
    current_image_index (show_image (Py.len (frames st))
          (update_image_list (with_heap (<[images st := frames st ++ files]>
                                           (heap st ++ [frames st])) st))).
Proof.
  intros Hal. unfold allocated in Hal.
  unfold add_images, copy, alloc, add_to_undo_stack. cbn zeta. simpl.
  unfold frames.
  rewrite (deref_alloc_old (heap st)) by assumption.
  rewrite deref_insert_ne by lia.
  rewrite deref_alloc_new. split; reflexivity.
Qed.

Lemma frames_after_extend (files : list string) (st : App) :
  allocated st ->
  frames (update_image_list (with_heap (<[images st := frames st ++ files]>
                                          (heap st ++ [frames st])) st))
  = frames st ++ files.
Proof.
  intros Hal. unfold allocated in Hal. unfold frames at 1. simpl.
  apply deref_insert_eq. rewrite length_app. simpl. lia.
Qed.

(** X1.  [add_images] appends the files, in their order, after the
    frames that are there, which keep their positions.  With at least
    one file the first new frame becomes the current one: the index and
    the current row of the list are the old length and the preview shows
    that file.  With no file the index and the preview stay. *)
Theorem add_images_appends (files : list string) (st : App) :
  allocated st ->
  let st' := add_images files st in
  frames st' = frames st ++ files /\
  (forall j : nat, (j < length (frames st))%nat -> frames st' !! j = frames st !! j) /\
  (forall f rest, files = f :: rest ->
     current_image_index st' = Py.len (frames st) /\
     preview_widget (ui st') = Some f /\
     lw_current (image_list (ui st')) = Py.len (frames st)) /\
  (files = [] ->
     current_image_index st' = current_image_index st /\
     preview_widget (ui st') = preview_widget (ui st)).
Proof.
  intros Hal st'.
  destruct (add_images_spec files st Hal) as (_ & Hf & _).
  destruct (add_images_ui files st Hal) as [Hui Hidx].
  pose proof (frames_after_extend files st Hal) as Hfs.
  fold st' in Hf, Hui, Hidx.
  split; [exact Hf|]. split; [|split].
  - intros j Hj. rewrite Hf. now apply lookup_app_l.
  - intros f rest ->. rewrite Hui, Hidx.
    match goal with
    | |- context [show_image ?k ?s] =>
        destruct (show_image_cases k s) as [[_ Hn]|(p & Hk & Hp & ->)]
    end.
    + exfalso. apply Hn. rewrite Hfs. unfold Py.len. rewrite length_app. simpl. lia.
    + simpl. rewrite Hfs in Hp. unfold Py.len in Hp. rewrite Nat2Z.id in Hp.
      rewrite lookup_app_r in Hp by lia.
      replace (length (frames st) - length (frames st))%nat with 0%nat in Hp by lia.
      simpl in Hp. injection Hp as <-. auto.
  - intros ->. rewrite Hui, Hidx.
    match goal with
    | |- context [show_image ?k ?s] =>
        destruct (show_image_cases k s) as [[-> _]|(p & Hk & _ & _)]
    end.
    + split; reflexivity.
    + exfalso. rewrite Hfs, app_nil_r in Hk. lia.
Qed.

Lemma add_images_appends_witness :
  let st := add_images ["a"; "b"]%string init in
  let st' := add_images ["c"; "d"]%string st in
  frames st' = frames st ++ ["c"; "d"]%string /\
  (forall j : nat, (j < length (frames st))%nat -> frames st' !! j = frames st !! j) /\
  (forall f rest, ["c"; "d"]%string = f :: rest ->
     current_image_index st' = Py.len (frames st) /\
     preview_widget (ui st') = Some f /\
     lw_current (image_list (ui st')) = Py.len (frames st)) /\
  (["c"; "d"]%string = [] ->
     current_image_index st' = current_image_index st /\
     preview_widget (ui st') = preview_widget (ui st)).
Proof.
  intros st. apply (add_images_appends ["c"; "d"]%string st).
  unfold allocated. simpl. lia.
Defined.

(** ** The two mutations, in closed form *)

Lemma add_images_eq (files : list string) (st : App) :
  allocated st ->
  let h2 := <[images st := frames st ++ files]> (heap st ++ [frames st]) in
  add_images files st =
    add_to_undo_stack ("add_images"%string, (length (heap st), S (length (heap st))))
      (with_heap (h2 ++ [frames st ++ files])
         (show_image (Py.len (frames st)) (update_image_list (with_heap h2 st)))).
Proof.
  intros Hal h2. unfold allocated in Hal.
  assert (Hlen : length h2 = S (length (heap st))).
  { unfold h2. rewrite length_insert, length_app. simpl. lia. }
  assert (E2 : deref h2 (images st) = frames st ++ files).
  { unfold h2. apply deref_insert_eq. rewrite length_app. simpl. lia. }
  unfold add_images, copy, alloc. cbn zeta.
  fold (frames st).
  rewrite (deref_alloc_old (heap st)) by assumption. fold (frames st). fold h2.
  simpl heap at 1.
  assert (E3 : deref h2 (length (heap st)) = frames st).
  { unfold h2. rewrite deref_insert_ne by lia. apply deref_alloc_new. }
  cbn [heap update_image_list update_thumbnail_view with_ui with_heap] in *.
  rewrite E3. rewrite show_image_heap, show_image_images. simpl.
  rewrite E2, Hlen. reflexivity.
Qed.

Lemma remove_selected_frame_eq (st : App) (l : list string) :
  allocated st ->
  lw_current (image_list (ui st)) <> -1 ->
  Py.del (frames st) (lw_current (image_list (ui st))) = Some l ->
  let h2 := <[images st := l]> (heap st ++ [frames st]) in
  remove_selected_frame st =
    Return (add_to_undo_stack
              ("remove_frame"%string, (length (heap st), S (length (heap st))))
              (with_heap (h2 ++ [l])
                 (after_removal (lw_current (image_list (ui st))) l
                    (update_image_list (with_heap h2 st))))).
Proof.
  intros Hal Hrow Hdel h2. unfold allocated in Hal.
  assert (Hlen : length h2 = S (length (heap st))).
  { unfold h2. rewrite length_insert, length_app. simpl. lia. }
  assert (E2 : deref h2 (images st) = l).
  { unfold h2. apply deref_insert_eq. rewrite length_app. simpl. lia. }
  unfold remove_selected_frame, copy, alloc.
  apply Z.eqb_neq in Hrow. rewrite Hrow. cbn [negb].
  fold (frames st).
  rewrite (deref_alloc_old (heap st)) by assumption. fold (frames st).
  rewrite Hdel. fold h2. cbn zeta.
  assert (Hfs : frames (update_image_list (with_heap h2 st)) = l) by exact E2.
  rewrite Hfs. unfold after_removal.
  destruct l as [|x l'].
  - simpl. rewrite E2, Hlen. reflexivity.
  - rewrite show_image_heap, show_image_images. simpl.
    rewrite E2, Hlen. reflexivity.
Qed.

(** ** History *)

(** X2.  Every recorded mutation ([add_images], or a
    [remove_selected_frame] with a row selected) that returns leaves the
    redo stack empty, so that [redo] right after it does nothing, and
    makes the undo stack one entry longer. *)
Theorem mutation_forecloses_redo (st st1 : App) (m : mutation) :
  allocated st ->
  mutates m st = true ->
  mutate m st = Return st1 ->
  redo_stack st1 = [] /\
  redo st1 = st1 /\
  length (undo_stack st1) = S (length (undo_stack st)).
Proof.
  intros Hal Hm Hrun.
  assert (H : redo_stack st1 = [] /\
              length (undo_stack st1) = S (length (undo_stack st))).
  { destruct m as [files|]; simpl in *.
    - injection Hrun as <-.
      destruct (add_images_spec files st Hal) as (_ & _ & Hu & Hr & _).
      rewrite Hu, Hr. auto.
    - apply negb_true_iff, Z.eqb_neq in Hm.
      destruct (Py.del (frames st) (lw_current (image_list (ui st)))) as [l|] eqn:Hdel.
      + destruct (remove_selected_frame_spec st l Hal Hm Hdel)
          as (st' & Hrem & _ & _ & Hu & Hr & _).
        rewrite Hrun in Hrem. injection Hrem as <-. rewrite Hu, Hr. auto.
      + exfalso. unfold remove_selected_frame, copy, alloc in Hrun.
        apply Z.eqb_neq in Hm. rewrite Hm in Hrun. cbn [negb] in Hrun.
        unfold allocated in Hal. rewrite deref_alloc_old in Hrun by assumption.
        unfold frames in Hdel. rewrite Hdel in Hrun. discriminate. }
  destruct H as [Hr Hu]. split; [exact Hr|]. split; [|exact Hu].
  unfold redo. now rewrite Hr.
Qed.

Lemma mutation_forecloses_redo_witness :
  let st := undo (add_images ["a"]%string init) in
  let st1 := add_images ["b"]%string st in
  redo_stack st <> [] /\
  redo_stack st1 = [] /\
  redo st1 = st1 /\
  length (undo_stack st1) = S (length (undo_stack st)).
Proof.
  intros st st1. split; [discriminate|].
  apply (mutation_forecloses_redo st st1 (add_images_call ["b"]%string)).
  - unfold allocated. simpl. lia.
  - reflexivity.
  - reflexivity.
Defined.

(** X3.  [undo] on an empty undo stack and [redo] on an empty redo stack
    do nothing.  Otherwise [undo] then [redo], and [redo] then [undo],
    put both stacks and the store back as they were; [undo] makes
    [self.images] the snapshot-before of the entry it moves and [redo]
    its snapshot-after. *)
Theorem undo_redo_round_trip_on_history (st : App) :
  (undo_stack st = [] -> undo st = st) /\
  (redo_stack st = [] -> redo st = st) /\
  (forall e rest, undo_stack st = e :: rest ->
     undo_stack (redo (undo st)) = undo_stack st /\
     redo_stack (redo (undo st)) = redo_stack st /\
     heap (redo (undo st)) = heap st /\
     images (undo st) = old_state e /\
     images (redo (undo st)) = new_state e) /\
  (forall e rest, redo_stack st = e :: rest ->
     undo_stack (undo (redo st)) = undo_stack st /\
     redo_stack (undo (redo st)) = redo_stack st /\
     heap (undo (redo st)) = heap st /\
     images (redo st) = new_state e /\
     images (undo (redo st)) = old_state e).
Proof.
  split; [|split; [|split]].
  - intros H. unfold undo. now rewrite H.
  - intros H. unfold redo. now rewrite H.
  - intros [k [o n]] rest Hu.
    destruct (undo_top _ _ _ _ _ Hu) as (Hh & Hi & Hus & Hrs).
    destruct (redo_top _ _ _ _ _ Hrs) as (Hh' & Hi' & Hrs' & Hus').
    unfold old_state, new_state. simpl.
    refine (conj _ (conj _ (conj _ (conj _ _)))).
    + rewrite Hus', Hus. now rewrite Hu.
    + exact Hrs'.
    + now rewrite Hh'.
    + exact Hi.
    + exact Hi'.
  - intros [k [o n]] rest Hr.
    destruct (redo_top _ _ _ _ _ Hr) as (Hh & Hi & Hrs & Hus).
    destruct (undo_top _ _ _ _ _ Hus) as (Hh' & Hi' & Hus' & Hrs').
    unfold old_state, new_state. simpl.
    refine (conj _ (conj _ (conj _ (conj _ _)))).
    + exact Hus'.
    + rewrite Hrs', Hrs. now rewrite Hr.
    + now rewrite Hh'.
    + exact Hi.
    + exact Hi'.
Qed.

Lemma undo_redo_round_trip_on_history_witness :
  let st := add_images ["b"]%string (add_images ["a"]%string init) in
  undo init = init /\
  redo st = st /\
  undo_stack (redo (undo st)) = undo_stack st /\
  redo_stack (redo (undo st)) = redo_stack st /\
  undo_stack (undo (redo (undo st))) = undo_stack (undo st) /\
  redo_stack (undo (redo (undo st))) = redo_stack (undo st).
Proof.
  intros st.
  destruct (undo_redo_round_trip_on_history init) as (H1 & _ & _ & _).
  destruct (undo_redo_round_trip_on_history st) as (_ & H2 & H3 & _).
  destruct (undo_redo_round_trip_on_history (undo st)) as (_ & _ & _ & H4).
  split; [apply H1; reflexivity|].
  split; [apply H2; reflexivity|].
  destruct (H3 _ _ eq_refl) as (Ha & Hb & _).
  destruct (H4 _ _ eq_refl) as (Hc & Hd & _).
  auto.
Defined.

(** ** Stepping through the frames *)

Lemma show_image_in_range (i : Z) (st : App) :
  0 <= i < Py.len (frames st) ->
  current_image_index (show_image i st) = i /\
  preview_widget (ui (show_image i st)) = frames st !! Z.to_nat i /\
  lw_current (image_list (ui (show_image i st))) = i /\
  frames (show_image i st) = frames st.
Proof.
  intros Hi. rewrite show_image_frames.
  destruct (show_image_cases i st) as [[_ Hn]|(p & _ & Hp & ->)]; [contradiction|].
  simpl. rewrite Hp. auto.
Qed.

(** A step of [d] frames (one forward or one back) on a project that
    has frames. *)
Lemma step_frame_spec (st : App) (d : Z) :
  frames st <> [] ->
  let N := Py.len (frames st) in
  let i := current_image_index st in
  let st1 := show_image ((i + d) mod N) st in
  frames st1 = frames st /\
  current_image_index st1 = (i + d) mod N /\
  preview_widget (ui st1) = frames st !! Z.to_nat ((i + d) mod N) /\
  (d = 1 -> next_frame st = Return st1) /\
  (d = -1 -> prev_frame st = Return st1).
Proof.
  intros Hne N i st1.
  assert (HN : 0 < N).
  { unfold N, Py.len. destruct (frames st); [contradiction|simpl; lia]. }
  assert (E : (N =? 0) = false) by (apply Z.eqb_neq; lia).
  pose proof (Z.mod_pos_bound (i + d) N HN) as H1.
  destruct (show_image_in_range ((i + d) mod N) st H1) as (A1 & B1 & _ & C1).
  fold st1 in A1, B1, C1.
  split; [exact C1|]. split; [exact A1|]. split; [exact B1|].
  split; intros ->.
  - unfold next_frame, Py.mod_. fold N i. rewrite E. reflexivity.
  - unfold prev_frame, Py.mod_. fold N i. rewrite E. reflexivity.
Qed.

(** X4.  With [N > 0] frames, [next_frame] and [prev_frame] return,
    keep the frames, and move the index to [(i + 1) % N] and
    [(i - 1) % N], always a position of a frame, whose file the preview
    then shows: one forward and one back inside the sequence, from the
    last frame to the first and from the first to the last. *)
Theorem next_prev_frame_wrap_around (st : App) :
  frames st <> [] ->
  let N := Py.len (frames st) in
  let i := current_image_index st in
  exists st1 st2,
    next_frame st = Return st1 /\
    prev_frame st = Return st2 /\
    frames st1 = frames st /\ frames st2 = frames st /\
    current_image_index st1 = (i + 1) mod N /\
    current_image_index st2 = (i - 1) mod N /\
    0 <= current_image_index st1 < N /\
    0 <= current_image_index st2 < N /\
    preview_widget (ui st1) = frames st !! Z.to_nat ((i + 1) mod N) /\
    preview_widget (ui st2) = frames st !! Z.to_nat ((i - 1) mod N) /\
    (i = N - 1 -> current_image_index st1 = 0) /\
    (i = 0 -> current_image_index st2 = N - 1) /\
    (0 <= i < N - 1 -> current_image_index st1 = i + 1) /\
    (0 < i < N -> current_image_index st2 = i - 1).
Proof.
  intros Hne N i.
  assert (HN : 0 < N).
  { unfold N, Py.len. destruct (frames st); [contradiction|simpl; lia]. }
  pose proof (Z.mod_pos_bound (i + 1) N HN) as H1.
  pose proof (Z.mod_pos_bound (i - 1) N HN) as H2.
  destruct (step_frame_spec st 1 Hne) as (C1 & A1 & B1 & Hn & _).
  destruct (step_frame_spec st (-1) Hne) as (C2 & A2 & B2 & _ & Hp).
  fold N i in C1, A1, B1, Hn, C2, A2, B2, Hp.
  change (i + -1) with (i - 1) in *.
  exists (show_image ((i + 1) mod N) st), (show_image ((i - 1) mod N) st).
  rewrite A1, A2, B1, B2, C1, C2.
  split; [now apply Hn|]. split; [now apply Hp|].
  repeat split; try lia.
  - intros ->. replace (N - 1 + 1) with N by lia. apply Z.mod_same. lia.
  - intros ->. symmetry. apply (Z.mod_unique_pos _ _ (-1)); lia.
  - intros Hi. apply Z.mod_small. lia.
  - intros Hi. apply Z.mod_small. lia.
Qed.

Lemma next_prev_frame_wrap_around_witness :
  let st := on_select_image 4 (add_images ["a"; "b"; "c"; "d"; "e"]%string init) in
  current_image_index st = 4 /\
  exists st1, next_frame st = Return st1 /\ current_image_index st1 = 0 /\
  exists st2, prev_frame st1 = Return st2 /\ current_image_index st2 = 4.
Proof.
  intros st. split; [reflexivity|].
  destruct (next_prev_frame_wrap_around st ltac:(discriminate))
    as (st1 & _ & Hn & _ & Hf & _ & _ & _ & _ & _ & _ & _ & Hw & _).
  exists st1. split; [exact Hn|]. split; [apply Hw; reflexivity|].
  destruct (next_prev_frame_wrap_around st1)
    as (_ & st2 & _ & Hp & _ & _ & _ & _ & _ & _ & _ & _ & _ & Hw' & _).
  - rewrite Hf. discriminate.
  - exists st2. split; [exact Hp|]. rewrite Hw' by (apply Hw; reflexivity).
    rewrite Hf. reflexivity.
Defined.

(** X5.  With the index on a frame, [next_frame] then [prev_frame], and
    [prev_frame] then [next_frame], come back to the same index and the
    same frame in the preview. *)
Theorem next_then_prev_returns (st : App) :
  0 <= current_image_index st < Py.len (frames st) ->
  exists st1 st2 st3 st4,
    next_frame st = Return st1 /\ prev_frame st1 = Return st2 /\
    prev_frame st = Return st3 /\ next_frame st3 = Return st4 /\
    current_image_index st2 = current_image_index st /\
    current_image_index st4 = current_image_index st /\
    preview_widget (ui st2) = frames st !! Z.to_nat (current_image_index st) /\
    preview_widget (ui st4) = frames st !! Z.to_nat (current_image_index st).
Proof.
  intros Hi.
  set (N := Py.len (frames st)) in *. set (i := current_image_index st) in *.
  assert (Hne : frames st <> []).
  { intros E. unfold N, Py.len in Hi. rewrite E in Hi. simpl in Hi. lia. }
  destruct (step_frame_spec st 1 Hne) as (Hf1 & Hi1 & _ & Hn & _).
  destruct (step_frame_spec st (-1) Hne) as (Hf3 & Hi3 & _ & _ & Hp).
  specialize (Hn eq_refl). specialize (Hp eq_refl).
  fold N i in Hf1, Hi1, Hn, Hf3, Hi3, Hp.
  change (i + -1) with (i - 1) in *.
  set (st1 := show_image ((i + 1) mod N) st) in *.
  set (st3 := show_image ((i - 1) mod N) st) in *.
  assert (Hne1 : frames st1 <> []) by now rewrite Hf1.
  assert (Hne3 : frames st3 <> []) by now rewrite Hf3.
  destruct (step_frame_spec st1 (-1) Hne1) as (Hf2 & Hi2 & Hq2 & _ & Hp2).
  destruct (step_frame_spec st3 1 Hne3) as (Hf4 & Hi4 & Hq4 & Hn4 & _).
  specialize (Hp2 eq_refl). specialize (Hn4 eq_refl).
  rewrite Hf1, Hi1 in Hf2, Hi2, Hq2, Hp2. rewrite Hf3, Hi3 in Hf4, Hi4, Hq4, Hn4.
  fold N in Hf2, Hi2, Hq2, Hp2, Hf4, Hi4, Hq4, Hn4.
  change ((i + 1) mod N + -1) with ((i + 1) mod N - 1) in *.
  set (st2 := show_image (((i + 1) mod N - 1) mod N) st1) in *.
  set (st4 := show_image (((i - 1) mod N + 1) mod N) st3) in *.
  assert (E2 : ((i + 1) mod N - 1) mod N = i).
  { rewrite Zminus_mod_idemp_l. replace (i + 1 - 1) with i by lia.
    apply Z.mod_small. lia. }
  assert (E4 : ((i - 1) mod N + 1) mod N = i).
  { rewrite Zplus_mod_idemp_l. replace (i - 1 + 1) with i by lia.
    apply Z.mod_small. lia. }
  rewrite E2 in Hi2, Hq2. rewrite E4 in Hi4, Hq4.
  exists st1, st2, st3, st4. repeat split; assumption.
Qed.

Lemma next_then_prev_returns_witness :
  let st := on_select_image 0 (add_images ["a"; "b"; "c"]%string init) in
  exists st1 st2 st3 st4,
    next_frame st = Return st1 /\ prev_frame st1 = Return st2 /\
    prev_frame st = Return st3 /\ next_frame st3 = Return st4 /\
    current_image_index st2 = current_image_index st /\
    current_image_index st4 = current_image_index st /\
    preview_widget (ui st2) = frames st !! Z.to_nat (current_image_index st) /\
    preview_widget (ui st4) = frames st !! Z.to_nat (current_image_index st).
Proof.
  intros st. apply (next_then_prev_returns st).
  simpl. unfold Py.len. simpl. lia.
Defined.

(** ** What is shown after a removal *)

Lemma after_removal_nonempty (i : Z) (l : list string) (s1 : App) :
  l <> [] -> after_removal i l s1 = show_image (Z.min i (Py.len l - 1)) s1.
Proof. destruct l; [contradiction|reflexivity]. Qed.

(** X6.  [remove_selected_frame] on row [i] of [N] frames: when it was
    the only frame the preview is cleared, no row is current and the
    index is left as it was; otherwise the index and the current row
    become [min(i, N - 2)] and the preview shows the frame that followed
    the removed one, or the one before it when the last frame was
    removed. *)
Theorem remove_selected_frame_shows_neighbour (st : App) :
  allocated st ->
  let i := lw_current (image_list (ui st)) in
  let N := Py.len (frames st) in
  0 <= i < N ->
  exists st',
    remove_selected_frame st = Return st' /\
    (N = 1 ->
     frames st' = [] /\
     preview_widget (ui st') = None /\
     lw_current (image_list (ui st')) = -1 /\
     current_image_index st' = current_image_index st) /\
    (1 < N ->
     current_image_index st' = Z.min i (N - 2) /\
     lw_current (image_list (ui st')) = Z.min i (N - 2) /\
     preview_widget (ui st') = frames st' !! Z.to_nat (Z.min i (N - 2)) /\
     (i < N - 1 -> preview_widget (ui st') = frames st !! Z.to_nat (i + 1)) /\
     (i = N - 1 -> preview_widget (ui st') = frames st !! Z.to_nat (N - 2))).
Proof.
  intros Hal i N Hi.
  set (l := delete (Z.to_nat i) (frames st)).
  assert (Hdel : Py.del (frames st) i = Some l).
  { unfold Py.del. now rewrite index_in_range. }
  assert (Hll : Py.len l = N - 1).
  { unfold l, N, Py.len in *. rewrite length_delete.
    - lia.
    - apply lookup_lt_is_Some. lia. }
  pose proof (remove_selected_frame_eq st l Hal ltac:(fold i; lia) Hdel) as Heq.
  cbn zeta in Heq. fold i in Heq.
  destruct (remove_selected_frame_spec st l Hal ltac:(fold i; lia) Hdel)
    as (st' & Hrem & _ & Hf & _).
  exists st'. split; [exact Hrem|].
  rewrite Hrem in Heq. injection Heq as Heq.
  set (s1 := update_image_list
               (with_heap (<[images st := l]> (heap st ++ [frames st])) st)) in *.
  assert (Hfs : frames s1 = l).
  { unfold s1, frames. simpl. apply deref_insert_eq.
    unfold allocated in Hal. rewrite length_app. simpl. lia. }
  assert (Hui : ui st' = ui (after_removal i l s1)) by (rewrite Heq; reflexivity).
  assert (Hci : current_image_index st' = current_image_index (after_removal i l s1))
    by (rewrite Heq; reflexivity).
  assert (Hlk1 : i < N - 1 -> l !! Z.to_nat i = frames st !! Z.to_nat (i + 1)).
  { intros Hlt. unfold l. rewrite list_lookup_delete_ge by lia. f_equal. lia. }
  assert (Hlk2 : 1 < N -> i = N - 1 ->
                 l !! Z.to_nat (N - 2) = frames st !! Z.to_nat (N - 2)).
  { intros HN E. unfold l. rewrite list_lookup_delete_lt by lia. reflexivity. }
  assert (Hs1a : lw_current (image_list (ui s1)) = -1) by reflexivity.
  assert (Hs1b : current_image_index s1 = current_image_index st) by reflexivity.
  rewrite Hui, Hci, Hf. clearbody l s1. split.
  - intros HN. assert (l = []) as ->.
    { destruct l; [reflexivity|]. unfold Py.len in Hll. simpl in Hll. lia. }
    simpl. auto.
  - intros HN. rewrite after_removal_nonempty.
    2:{ intros ->. unfold Py.len in Hll. simpl in Hll. lia. }
    rewrite Hll. replace (N - 1 - 1) with (N - 2) by lia.
    destruct (show_image_in_range (Z.min i (N - 2)) s1) as (A & B & C & _).
    { rewrite Hfs, Hll. lia. }
    rewrite A, B, C, Hfs.
    split; [reflexivity|]. split; [reflexivity|]. split; [reflexivity|]. split.
    + intros Hlt. rewrite Z.min_l by lia. now apply Hlk1.
    + intros E. rewrite Z.min_r by lia. now apply Hlk2.
Qed.

Lemma remove_selected_frame_shows_neighbour_witness :
  let st := on_select_image 1 (add_images ["a"; "b"; "c"]%string init) in
  exists st',
    remove_selected_frame st = Return st' /\
    current_image_index st' = 1 /\
    preview_widget (ui st') = Some "c"%string.
Proof.
  intros st.
  assert (Hal : allocated st) by (unfold allocated; simpl; lia).
  assert (Hi : 0 <= lw_current (image_list (ui st)) < Py.len (frames st))
    by (simpl; unfold Py.len; simpl; lia).
  destruct (remove_selected_frame_shows_neighbour st Hal Hi) as (st' & Hrem & _ & H2).
  destruct H2 as (A & _ & _ & B & _); [simpl; unfold Py.len; simpl; lia|].
  exists st'. split; [exact Hrem|]. split.
  - rewrite A. vm_compute. reflexivity.
  - rewrite B by (simpl; unfold Py.len; simpl; lia). vm_compute. reflexivity.
Defined.

(** ** Invariants of the window *)

(** Induction over the states the window can reach. *)
Lemma reachable_invariant (P : App -> Prop) :
  P init ->
  (forall c st st', wf st -> P st -> exec c st = Return st' -> P st') ->
  forall st, reachable st -> P st.
Proof.
  intros H0 Hstep st [cs Hrun].
  assert (H : wf init /\ P init) by (split; [apply wf_init | exact H0]).
  revert H Hrun. generalize init.
  induction cs as [|c cs IH]; intros s [Hwf HP] Hrun; simpl in Hrun.
  - now injection Hrun as <-.
  - destruct (exec c s) as [s1|] eqn:E; [|discriminate].
    apply (IH s1); [|exact Hrun]. split.
    + eapply wf_exec; eauto.
    + eapply Hstep; eauto.
Qed.

Lemma sync_ext (s s' : App) :
  lw_items (image_list (ui s')) = lw_items (image_list (ui s)) ->
  lw_current (image_list (ui s')) = lw_current (image_list (ui s)) ->
  thumbnail_layout (ui s') = thumbnail_layout (ui s) ->
  frames s' = frames s ->
  widgets_in_sync s -> widgets_in_sync s'.
Proof. unfold widgets_in_sync. intros -> -> -> ->. auto. Qed.

Lemma sync_show (i : Z) (s : App) : widgets_in_sync s -> widgets_in_sync (show_image i s).
Proof.
  intros (Hi & Hc & Ht). unfold widgets_in_sync. rewrite show_image_frames.
  destruct (show_image_cases i s) as [[-> _]|(p & Hr & _ & ->)]; simpl; auto.
  repeat split; try assumption; lia.
Qed.

Lemma sync_update (s : App) : widgets_in_sync (update_image_list s).
Proof.
  unfold widgets_in_sync. rewrite update_image_list_frames. simpl.
  repeat split; try reflexivity. unfold Py.len. lia.
Qed.

Lemma sync_show_update (i : Z) (s : App) :
  widgets_in_sync (show_image i (update_image_list s)).
Proof. apply sync_show, sync_update. Qed.

Lemma sync_after_removal (i : Z) (l : list string) (s : App) :
  frames s = l -> widgets_in_sync (after_removal i l (update_image_list s)).
Proof.
  intros Hf. destruct l as [|x l']; simpl.
  - pose proof (sync_update s) as (A & B & C).
    unfold widgets_in_sync. simpl in *. auto.
  - apply sync_show_update.
Qed.

Lemma sync_exec (c : command) (st st' : App) :
  wf st -> widgets_in_sync st -> exec c st = Return st' -> widgets_in_sync st'.
Proof.
  intros Hwf Hs Hrun. pose proof Hwf as (Hal & _).
  destruct c; simpl in Hrun.
  - injection Hrun as <-.
    destruct (add_images_spec files st Hal) as (_ & Hf & _).
    pose proof (add_images_eq files st Hal) as Heq. cbn zeta in Heq.
    eapply sync_ext; [| | | |apply (sync_show_update (Py.len (frames st)))].
    + rewrite Heq. reflexivity.
    + rewrite Heq. reflexivity.
    + rewrite Heq. reflexivity.
    + rewrite Hf, show_image_frames. symmetry. now apply frames_after_extend.
  - destruct (Z.eq_dec (lw_current (image_list (ui st))) (-1)) as [E|E].
    + unfold remove_selected_frame in Hrun. rewrite E in Hrun. simpl in Hrun.
      now injection Hrun as <-.
    + destruct (Py.del (frames st) (lw_current (image_list (ui st)))) as [l|] eqn:Hdel.
      * destruct (remove_selected_frame_spec st l Hal E Hdel) as (st2 & Hrem & _ & Hf & _).
        pose proof (remove_selected_frame_eq st l Hal E Hdel) as Heq. cbn zeta in Heq.
        rewrite Hrun in Hrem. injection Hrem as <-.
        rewrite Hrun in Heq. injection Heq as Heq.
        assert (Hfs : frames (with_heap (<[images st := l]> (heap st ++ [frames st])) st) = l).
        { unfold frames at 1. simpl. apply deref_insert_eq.
          unfold allocated in Hal. rewrite length_app. simpl. lia. }
        eapply sync_ext;
          [| | | |apply (sync_after_removal (lw_current (image_list (ui st))) l _ Hfs)].
        -- rewrite Heq. reflexivity.
        -- rewrite Heq. reflexivity.
        -- rewrite Heq. reflexivity.
        -- rewrite Hf. destruct l; simpl; [symmetry; exact Hfs|].
           rewrite show_image_frames. symmetry. exact Hfs.
      * exfalso. unfold remove_selected_frame, copy, alloc in Hrun.
        apply Z.eqb_neq in E. rewrite E in Hrun. cbn [negb] in Hrun.
        unfold allocated in Hal. rewrite deref_alloc_old in Hrun by assumption.
        unfold frames in Hdel. rewrite Hdel in Hrun. discriminate.
  - injection Hrun as <-. unfold undo.
    destruct (undo_stack st) as [|[k [o n]] rest]; [assumption|]. apply sync_show_update.
  - injection Hrun as <-. unfold redo.
    destruct (redo_stack st) as [|[k [o n]] rest]; [assumption|]. apply sync_show_update.
  - unfold next_frame in Hrun. destruct Py.mod_; [|discriminate].
    injection Hrun as <-. now apply sync_show.
  - unfold prev_frame in Hrun. destruct Py.mod_; [|discriminate].
    injection Hrun as <-. now apply sync_show.
  - unfold toggle_play in Hrun. destruct (is_playing st).
    + injection Hrun as <-. revert Hs. now apply sync_ext.
    + destruct Py.floordiv; [|discriminate].
      injection Hrun as <-. revert Hs. now apply sync_ext.
  - destruct (play_timer st).
    + unfold next_frame in Hrun. destruct Py.mod_; [|discriminate].
      injection Hrun as <-. now apply sync_show.
    + now injection Hrun as <-.
  - injection Hrun as <-. unfold on_select_image.
    destruct ((0 <=? row) && (row <? Py.len (lw_items (image_list (ui st))))) eqn:E;
      [|assumption].
    apply andb_true_iff in E as [E1 E2].
    apply sync_show. destruct Hs as (A & B & C). unfold widgets_in_sync. simpl.
    apply Z.leb_le in E1. apply Z.ltb_lt in E2.
    unfold Py.len in *. rewrite (Permutation_length A) in E2.
    repeat split; try assumption; lia.
  - injection Hrun as <-.
    destruct (move_row_cases from to current st) as [->|(items & -> & Hp & Hc)];
      [assumption|].
    destruct Hs as (A & B & C). unfold widgets_in_sync. simpl.
    unfold Py.len in *. rewrite (Permutation_length A) in Hc.
    split; [exact (Permutation_trans Hp A)|]. split; [exact Hc|exact C].
  - unfold update_fps in Hrun. destruct Py.int_of_str; [|discriminate].
    injection Hrun as <-. revert Hs. now apply sync_ext.
  - injection Hrun as <-. revert Hs. now apply sync_ext.
  - injection Hrun as <-. revert Hs. now apply sync_ext.
Qed.

Lemma sync_init : widgets_in_sync init.
Proof.
  unfold widgets_in_sync. simpl.
  repeat split; try reflexivity; unfold Py.len; simpl; lia.
Qed.

Lemma reachable_sync (st : App) : reachable st -> widgets_in_sync st.
Proof.
  revert st. apply reachable_invariant; [apply sync_init|].
  intros c st st'. apply sync_exec.
Qed.

(** X7.  In every state the window can reach, the list widget has one
    row per frame (in the order of the frames, or in the order the user
    dragged the rows into), its current row is [-1] or a position of a
    frame, and the thumbnail grid is the one [update_thumbnail_view]
    lays out for the frames; hence [remove_selected_frame] never raises
    there. *)
Theorem reachable_widgets_in_sync (st : App) :
  reachable st ->
  widgets_in_sync st /\
  exists st', remove_selected_frame st = Return st'.
Proof.
  intros Hr.
  pose proof (reachable_sync st Hr) as Hs.
  split; [exact Hs|].
  pose proof (reachable_allocated st Hr) as Hal.
  destruct Hs as (_ & Hc & _).
  destruct (Z.eq_dec (lw_current (image_list (ui st))) (-1)) as [E|E].
  - exists st. unfold remove_selected_frame. now rewrite E.
  - assert (Hdel : Py.del (frames st) (lw_current (image_list (ui st)))
                   = Some (delete (Z.to_nat (lw_current (image_list (ui st)))) (frames st))).
    { unfold Py.del. rewrite index_in_range; [reflexivity|]. unfold Py.len in Hc. lia. }
    destruct (remove_selected_frame_spec st _ Hal E Hdel) as (st' & Hrem & _).
    now exists st'.
Qed.

Lemma reachable_widgets_in_sync_witness :
  let st := final (run [AddImages ["a"; "b"; "c"]%string; MoveRow 0 2 2;
                        RemoveSelectedFrame; Undo; MoveRow 2 0 1] init) in
  lw_items (image_list (ui st)) = ["c"; "a"; "b"]%string /\
  frames st = ["a"; "b"; "c"]%string /\
  widgets_in_sync st /\
  exists st', remove_selected_frame st = Return st'.
Proof.
  intros st. split; [vm_compute; reflexivity|]. split; [vm_compute; reflexivity|].
  apply (reachable_widgets_in_sync st).
  exists [AddImages ["a"; "b"; "c"]%string; MoveRow 0 2 2; RemoveSelectedFrame; Undo;
          MoveRow 2 0 1].
  vm_compute. reflexivity.
Defined.

(** X8.  In every reachable state the thumbnail grid has one cell per
    frame, the [k]-th frame sits in row [k // 4] and column [k % 4]
    (four columns), and no two frames share a cell. *)
Theorem thumbnails_fill_rows_of_four (st : App) :
  reachable st ->
  length (thumbnail_layout (ui st)) = length (frames st) /\
  (forall (k : nat) p r c,
     thumbnail_layout (ui st) !! k = Some (p, (r, c)) ->
     frames st !! k = Some p /\ 0 <= c < 4 /\ 0 <= r /\ Z.of_nat k = 4 * r + c) /\
  (forall (k k' : nat) p p' cell,
     thumbnail_layout (ui st) !! k = Some (p, cell) ->
     thumbnail_layout (ui st) !! k' = Some (p', cell) ->
     k = k').
Proof.
  intros Hr. destruct (reachable_sync st Hr) as (_ & _ & Ht).
  rewrite Ht. unfold thumbnail_grid.
  assert (Hcell : forall (k : nat) p r c,
             imap (fun i q => (q, (Z.of_nat i / 4, Z.of_nat i mod 4))) (frames st) !! k
               = Some (p, (r, c)) ->
             frames st !! k = Some p /\ 0 <= c < 4 /\ 0 <= r /\ Z.of_nat k = 4 * r + c).
  { intros k p r c H. rewrite list_lookup_imap in H.
    destruct (frames st !! k) as [q|]; [|discriminate].
    simpl in H. injection H as <- <- <-.
    pose proof (Z.mod_pos_bound (Z.of_nat k) 4 ltac:(lia)).
    pose proof (Z.div_mod (Z.of_nat k) 4 ltac:(lia)).
    pose proof (Z.div_pos (Z.of_nat k) 4 ltac:(lia) ltac:(lia)).
    repeat split; first [lia | reflexivity]. }
  split; [apply length_imap|]. split; [exact Hcell|].
  intros k k' p p' [r c] H1 H2.
  apply Hcell in H1 as (_ & _ & _ & E1). apply Hcell in H2 as (_ & _ & _ & E2). lia.
Qed.

Lemma thumbnails_fill_rows_of_four_witness :
  let st := add_images ["a"; "b"; "c"; "d"; "e"; "f"]%string init in
  thumbnail_layout (ui st) !! 5%nat = Some ("f"%string, (1, 1)) /\
  length (thumbnail_layout (ui st)) = length (frames st) /\
  (forall (k : nat) p r c,
     thumbnail_layout (ui st) !! k = Some (p, (r, c)) ->
     frames st !! k = Some p /\ 0 <= c < 4 /\ 0 <= r /\ Z.of_nat k = 4 * r + c) /\
  (forall (k k' : nat) p p' cell,
     thumbnail_layout (ui st) !! k = Some (p, cell) ->
     thumbnail_layout (ui st) !! k' = Some (p', cell) ->
     k = k').
Proof.
  intros st. split; [vm_compute; reflexivity|].
  apply (thumbnails_fill_rows_of_four st).
  exists [AddImages ["a"; "b"; "c"; "d"; "e"; "f"]%string]. vm_compute. reflexivity.
Defined.

Lemma show_image_player (i : Z) (s : App) :
  is_playing (show_image i s) = is_playing s /\
  play_timer (show_image i s) = play_timer s /\
  play_button (ui (show_image i s)) = play_button (ui s) /\
  fps (show_image i s) = fps s.
Proof. destruct (show_image_cases i s) as [[-> _]|(p & _ & _ & ->)]; simpl; auto. Qed.

Lemma player_ext (s s' : App) :
  is_playing s' = is_playing s -> play_timer s' = play_timer s ->
  play_button (ui s') = play_button (ui s) ->
  player_consistent s -> player_consistent s'.
Proof. unfold player_consistent. intros -> -> ->. auto. Qed.

Lemma player_show (i : Z) (s : App) :
  player_consistent s -> player_consistent (show_image i s).
Proof. destruct (show_image_player i s) as (A & B & C & _). now apply player_ext. Qed.

Lemma player_exec (c : command) (st st' : App) :
  wf st -> player_consistent st -> exec c st = Return st' -> player_consistent st'.
Proof.
  intros Hwf Hs Hrun. pose proof Hwf as (Hal & _).
  destruct c; simpl in Hrun.
  - injection Hrun as <-.
    pose proof (add_images_eq files st Hal) as Heq. cbn zeta in Heq. rewrite Heq.
    match goal with
    | |- context [show_image ?k ?s] => destruct (show_image_player k s) as (A & B & C & _)
    end.
    revert Hs. apply player_ext; simpl; assumption.
  - destruct (Z.eq_dec (lw_current (image_list (ui st))) (-1)) as [E|E].
    + unfold remove_selected_frame in Hrun. rewrite E in Hrun. simpl in Hrun.
      now injection Hrun as <-.
    + destruct (Py.del (frames st) (lw_current (image_list (ui st)))) as [l|] eqn:Hdel.
      * pose proof (remove_selected_frame_eq st l Hal E Hdel) as Heq. cbn zeta in Heq.
        rewrite Hrun in Heq. injection Heq as ->.
        revert Hs. destruct l as [|x l']; simpl.
        -- now apply player_ext.
        -- match goal with
           | |- context [show_image ?k ?s] =>
               destruct (show_image_player k s) as (A & B & C & _)
           end.
           apply player_ext; simpl; assumption.
      * exfalso. unfold remove_selected_frame, copy, alloc in Hrun.
        apply Z.eqb_neq in E. rewrite E in Hrun. cbn [negb] in Hrun.
        unfold allocated in Hal. rewrite deref_alloc_old in Hrun by assumption.
        unfold frames in Hdel. rewrite Hdel in Hrun. discriminate.
  - injection Hrun as <-. unfold undo.
    destruct (undo_stack st) as [|[k [o n]] rest]; [assumption|].
    apply player_show. revert Hs. now apply player_ext.
  - injection Hrun as <-. unfold redo.
    destruct (redo_stack st) as [|[k [o n]] rest]; [assumption|].
    apply player_show. revert Hs. now apply player_ext.
  - unfold next_frame in Hrun. destruct Py.mod_; [|discriminate].
    injection Hrun as <-. now apply player_show.
  - unfold prev_frame in Hrun. destruct Py.mod_; [|discriminate].
    injection Hrun as <-. now apply player_show.
  - unfold toggle_play in Hrun. destruct (is_playing st) eqn:Ep.
    + injection Hrun as <-. right. simpl. auto.
    + destruct Py.floordiv; [|discriminate].
      injection Hrun as <-. left. simpl. repeat split; auto; discriminate.
  - destruct (play_timer st).
    + unfold next_frame in Hrun. destruct Py.mod_; [|discriminate].
      injection Hrun as <-. now apply player_show.
    + now injection Hrun as <-.
  - injection Hrun as <-. unfold on_select_image.
    destruct (_ && _); [|assumption].
    apply player_show. revert Hs. now apply player_ext.
  - injection Hrun as <-.
    destruct (move_row_cases from to current st) as [->|(items & -> & _)];
      [assumption|]. revert Hs. now apply player_ext.
  - unfold update_fps in Hrun. destruct Py.int_of_str; [|discriminate].
    injection Hrun as <-. revert Hs. now apply player_ext.
  - injection Hrun as <-. revert Hs. now apply player_ext.
  - injection Hrun as <-. revert Hs. now apply player_ext.
Qed.

Lemma reachable_player (st : App) : reachable st -> player_consistent st.
Proof.
  revert st. apply reachable_invariant.
  - right. simpl. auto.
  - intros c st st'. apply player_exec.
Qed.

(** X9.  In every reachable state the playing flag, the timer and the
    caption of the play button agree: playing, a running timer and
    "Pause", or stopped, no timer and "Play".  So a tick of the timer
    does nothing while stopped and is [next_frame] while playing. *)
Theorem reachable_player_consistent (st : App) :
  reachable st ->
  player_consistent st /\
  (is_playing st = false -> exec Tick st = Return st) /\
  (is_playing st = true -> exec Tick st = next_frame st).
Proof.
  intros Hr.
  pose proof (reachable_player st Hr) as Hs.
  split; [exact Hs|].
  destruct Hs as [(A & B & _)|(A & B & _)]; split; intros E; try congruence; simpl.
  - destruct (play_timer st); [reflexivity|contradiction].
  - now rewrite B.
Qed.

Lemma reachable_player_consistent_witness :
  let st := final (run [AddImages ["a"; "b"]%string; TogglePlay; Tick; UpdateFps "12"] init) in
  player_consistent st /\
  (is_playing st = false -> exec Tick st = Return st) /\
  (is_playing st = true -> exec Tick st = next_frame st).
Proof.
  intros st. apply (reachable_player_consistent st).
  exists [AddImages ["a"; "b"]%string; TogglePlay; Tick; UpdateFps "12"].
  vm_compute. reflexivity.
Defined.

(** X10.  From a reachable stopped state with a non-zero frame rate,
    [toggle_play] starts the timer with period [1000 // fps], and a
    second [toggle_play] gives back exactly the state before the
    first. *)
Theorem play_then_pause_restores_state (st : App) :
  reachable st ->
  is_playing st = false ->
  fps st <> 0 ->
  exists st1,
    toggle_play st = Return st1 /\
    play_timer st1 = Some (1000 / fps st) /\
    toggle_play st1 = Return st.
Proof.
  intros Hr Hp Hf.
  destruct (reachable_player st Hr) as [(A & _)|(_ & B & C)];
    [congruence|].
  unfold toggle_play at 1. rewrite Hp. unfold Py.floordiv.
  apply Z.eqb_neq in Hf. rewrite Hf.
  eexists. split; [reflexivity|]. split; [reflexivity|].
  unfold toggle_play. simpl. f_equal.
  destruct st as [h im ci f ip pt us rs u]. destruct u. simpl in *. subst. reflexivity.
Qed.

Lemma play_then_pause_restores_state_witness :
  let st := add_images ["a"; "b"]%string init in
  exists st1,
    toggle_play st = Return st1 /\
    play_timer st1 = Some (1000 / fps st) /\
    toggle_play st1 = Return st.
Proof.
  intros st. apply (play_then_pause_restores_state st).
  - exists [AddImages ["a"; "b"]%string]. vm_compute. reflexivity.
  - reflexivity.
  - discriminate.
Defined.

(** ** What undo and redo show *)

Lemma show_first_after_update (s : App) :
  let s' := show_image 0 (update_image_list s) in
  frames s' = frames s /\
  match frames s with
  | [] =>
      preview_widget (ui s') = preview_widget (ui s) /\
      current_image_index s' = current_image_index s /\
      lw_current (image_list (ui s')) = -1
  | f :: _ =>
      preview_widget (ui s') = Some f /\
      current_image_index s' = 0 /\
      lw_current (image_list (ui s')) = 0
  end.
Proof.
  cbn zeta. rewrite show_image_frames, update_image_list_frames. split; [reflexivity|].
  destruct (show_image_cases 0 (update_image_list s)) as [[-> Hn]|(p & Hr & Hp & ->)];
    rewrite update_image_list_frames in *.
  - destruct (frames s) as [|f l]; [simpl; auto|].
    exfalso. apply Hn. unfold Py.len. simpl. lia.
  - destruct (frames s) as [|f l]; [unfold Py.len in Hr; simpl in Hr; lia|].
    simpl in Hp. injection Hp as <-. simpl. auto.
Qed.

(** X11.  [undo] and [redo] show the first frame of the sequence they
    restore, with the index at 0; when the restored sequence is empty
    they leave the preview and the index as they were. *)
Theorem undo_redo_show_first_frame (st : App) (e : action) (rest : list action) :
  (undo_stack st = e :: rest ->
   frames (undo st) = deref (heap st) (old_state e) /\
   match deref (heap st) (old_state e) with
   | [] =>
       preview_widget (ui (undo st)) = preview_widget (ui st) /\
       current_image_index (undo st) = current_image_index st
   | f :: _ =>
       preview_widget (ui (undo st)) = Some f /\
       current_image_index (undo st) = 0
   end) /\
  (redo_stack st = e :: rest ->
   frames (redo st) = deref (heap st) (new_state e) /\
   match deref (heap st) (new_state e) with
   | [] =>
       preview_widget (ui (redo st)) = preview_widget (ui st) /\
       current_image_index (redo st) = current_image_index st
   | f :: _ =>
       preview_widget (ui (redo st)) = Some f /\
       current_image_index (redo st) = 0
   end).
Proof.
  destruct e as [k [o n]]. unfold old_state, new_state. simpl. split; intros H.
  - unfold undo. rewrite H.
    match goal with
    | |- context [show_image 0 (update_image_list ?s)] =>
        pose proof (show_first_after_update s) as [Hf Hm]
    end.
    cbn zeta in *. rewrite Hf. split; [reflexivity|].
    unfold frames in Hm. simpl in Hm.
    destruct (deref (heap st) o); tauto.
  - unfold redo. rewrite H.
    match goal with
    | |- context [show_image 0 (update_image_list ?s)] =>
        pose proof (show_first_after_update s) as [Hf Hm]
    end.
    cbn zeta in *. rewrite Hf. split; [reflexivity|].
    unfold frames in Hm. simpl in Hm.
    destruct (deref (heap st) n); tauto.
Qed.

Lemma undo_redo_show_first_frame_witness :
  let st := add_images ["a"]%string init in
  frames (undo st) = [] /\
  preview_widget (ui (undo st)) = preview_widget (ui st) /\
  frames (redo (undo st)) = ["a"]%string /\
  current_image_index (redo (undo st)) = 0.
Proof.
  intros st.
  set (e := ("add_images"%string, (1%nat, 2%nat)) : action).
  destruct (undo_redo_show_first_frame st e []) as [Hu _].
  destruct (undo_redo_show_first_frame (undo st) e []) as [_ Hr].
  destruct (Hu eq_refl) as [A B]. destruct (Hr eq_refl) as [C D].
  assert (E1 : deref (heap st) (old_state e) = []) by (vm_compute; reflexivity).
  assert (E2 : deref (heap (undo st)) (new_state e) = ["a"]%string)
    by (vm_compute; reflexivity).
  rewrite E1 in A, B. rewrite E2 in C, D.
  destruct B as [B _]. destruct D as [_ D]. auto.
Defined.

(** ** Which snapshots a command can touch *)

Lemma snapshot_refs_app (l1 l2 : list action) :
  snapshot_refs (l1 ++ l2) = snapshot_refs l1 ++ snapshot_refs l2.
Proof. unfold snapshot_refs. apply flat_map_app. Qed.

Lemma snapshot_refs_lt (n : nat) (l : list action) (r : nat) :
  Forall (entry_ok n) l -> In r (snapshot_refs l) -> (r < n)%nat.
Proof.
  induction l as [|a l IH]; simpl; [tauto|].
  intros H. apply Forall_cons in H as [[Ho Hn] Hl].
  intros [<-|[<-|Hin]]; auto.
Qed.

Lemma old_in_snapshot_refs (l : list action) (r : nat) :
  In r (map old_state l) -> In r (snapshot_refs l).
Proof.
  induction l as [|a l IH]; simpl; [tauto|].
  intros [<-|Hin]; auto.
Qed.

Lemma separated_same (st st' : App) :
  heap st' = heap st -> images st' = images st ->
  undo_stack st' = undo_stack st -> redo_stack st' = redo_stack st ->
  history_separated st -> history_separated st'.
Proof.
  intros Hh Hi Hu Hr (Hwf & Hnd & Hni). unfold history_separated.
  rewrite Hu, Hr, Hi.
  split; [revert Hwf; now apply wf_same|]. split; assumption.
Qed.

Lemma separated_push (st st' : App) (k : string) :
  history_separated st ->
  wf st' ->
  images st' = images st ->
  undo_stack st' = (k, (length (heap st), S (length (heap st)))) :: undo_stack st ->
  redo_stack st' = [] ->
  history_separated st'.
Proof.
  intros ((Hal & Hu & Hr) & Hnd & Hni) Hwf' Hi Hus Hrs.
  unfold history_separated. rewrite Hus, Hrs, Hi, app_nil_r.
  split; [exact Hwf'|].
  rewrite snapshot_refs_app in Hnd. apply NoDup_app in Hnd as (Hnd & _ & _).
  assert (Hlt : forall r, In r (snapshot_refs (undo_stack st)) -> (r < length (heap st))%nat).
  { intros r. now apply snapshot_refs_lt. }
  split.
  - simpl. unfold old_state, new_state. simpl.
    apply NoDup_cons. split.
    + intros Hin. apply list_elem_of_In in Hin. destruct Hin as [E|Hin]; [lia|].
      apply Hlt in Hin. lia.
    + apply NoDup_cons. split; [|exact Hnd].
      intros Hin. apply list_elem_of_In in Hin. apply Hlt in Hin. lia.
  - simpl. unfold old_state at 1. simpl. unfold allocated in Hal.
    intros [E|Hin]; [lia|contradiction].
Qed.

Lemma NoDup_move_entry (o n : nat) (l1 l2 : list nat) :
  NoDup (o :: n :: l1 ++ l2) <-> NoDup (l1 ++ o :: n :: l2).
Proof. now rewrite <- !Permutation_middle. Qed.

Lemma separated_undo (st : App) : history_separated st -> history_separated (undo st).
Proof.
  intros (Hwf & Hnd & Hni).
  destruct (undo_stack st) as [|[k [o n]] rest] eqn:E.
  - unfold undo. rewrite E. unfold history_separated. now rewrite E.
  - destruct (undo_top _ _ _ _ _ E) as (Hh & Hi & Hus & Hrs).
    unfold history_separated. rewrite Hus, Hrs, Hi.
    split; [now apply wf_undo|].
    rewrite snapshot_refs_app in *. simpl in Hnd. unfold old_state, new_state in Hnd.
    simpl in Hnd. split.
    + simpl. unfold old_state at 1, new_state at 1. simpl.
      now apply NoDup_move_entry.
    + intros Hin. apply old_in_snapshot_refs in Hin.
      apply NoDup_cons in Hnd as [Hno _]. apply Hno.
      apply list_elem_of_In. right. apply in_or_app. now left.
Qed.

Lemma separated_redo (st : App) : history_separated st -> history_separated (redo st).
Proof.
  intros (Hwf & Hnd & Hni).
  destruct (redo_stack st) as [|[k [o n]] rest] eqn:E.
  - unfold redo. rewrite E. unfold history_separated. now rewrite E.
  - destruct (redo_top _ _ _ _ _ E) as (Hh & Hi & Hrs & Hus).
    unfold history_separated. rewrite Hus, Hrs, Hi.
    split; [now apply wf_redo|].
    rewrite snapshot_refs_app in Hnd. simpl in Hnd. unfold old_state at 1, new_state at 1 in Hnd.
    simpl in Hnd. apply NoDup_move_entry in Hnd.
    split.
    + simpl. unfold old_state at 1, new_state at 1. simpl.
      now rewrite snapshot_refs_app.
    + simpl. unfold old_state at 1. simpl.
      apply NoDup_cons in Hnd as [Ho Hnd]. apply NoDup_cons in Hnd as [Hn _].
      intros [Eq|Hin].
      * apply Ho. subst. apply list_elem_of_In. now left.
      * apply old_in_snapshot_refs in Hin. apply Hn.
        apply list_elem_of_In. apply in_or_app. now left.
Qed.

Lemma separated_show (i : Z) (st : App) :
  history_separated st -> history_separated (show_image i st).
Proof. apply separated_same; now show_image_simpl. Qed.

Lemma separated_exec (c : command) (st st' : App) :
  history_separated st -> exec c st = Return st' -> history_separated st'.
Proof.
  intros Hs Hrun. pose proof Hs as (Hwf & _). pose proof Hwf as (Hal & _).
  destruct c; simpl in Hrun.
  - injection Hrun as <-.
    destruct (add_images_spec files st Hal) as (Hi & _ & Hu & Hr & _).
    eapply separated_push; eauto. now apply wf_add_images.
  - destruct (Z.eq_dec (lw_current (image_list (ui st))) (-1)) as [E|E].
    + unfold remove_selected_frame in Hrun. rewrite E in Hrun. simpl in Hrun.
      now injection Hrun as <-.
    + destruct (Py.del (frames st) (lw_current (image_list (ui st)))) as [l|] eqn:Hdel.
      * destruct (remove_selected_frame_spec st l Hal E Hdel)
          as (st2 & Hrem & Hi & _ & Hu & Hr & _).
        rewrite Hrun in Hrem. injection Hrem as <-.
        eapply separated_push; eauto. eapply wf_remove_selected_frame; eauto.
      * exfalso. unfold remove_selected_frame, copy, alloc in Hrun.
        apply Z.eqb_neq in E. rewrite E in Hrun. cbn [negb] in Hrun.
        unfold allocated in Hal. rewrite deref_alloc_old in Hrun by assumption.
        unfold frames in Hdel. rewrite Hdel in Hrun. discriminate.
  - injection Hrun as <-. now apply separated_undo.
  - injection Hrun as <-. now apply separated_redo.
  - unfold next_frame in Hrun. destruct Py.mod_; [|discriminate].
    injection Hrun as <-. now apply separated_show.
  - unfold prev_frame in Hrun. destruct Py.mod_; [|discriminate].
    injection Hrun as <-. now apply separated_show.
  - unfold toggle_play in Hrun. destruct (is_playing st).
    + injection Hrun as <-. revert Hs. now apply separated_same.
    + destruct Py.floordiv; [|discriminate].
      injection Hrun as <-. revert Hs. now apply separated_same.
  - destruct (play_timer st).
    + unfold next_frame in Hrun. destruct Py.mod_; [|discriminate].
      injection Hrun as <-. now apply separated_show.
    + now injection Hrun as <-.
  - injection Hrun as <-. unfold on_select_image.
    destruct (_ && _); [|assumption].
    apply separated_show. revert Hs. now apply separated_same.
  - injection Hrun as <-.
    destruct (move_row_cases from to current st) as [->|(items & -> & _)];
      [assumption|]. revert Hs. now apply separated_same.
  - unfold update_fps in Hrun. destruct Py.int_of_str; [|discriminate].
    injection Hrun as <-. revert Hs. now apply separated_same.
  - injection Hrun as <-. revert Hs. now apply separated_same.
  - injection Hrun as <-. revert Hs. now apply separated_same.
Qed.

Lemma reachable_separated (st : App) : reachable st -> history_separated st.
Proof.
  revert st. apply reachable_invariant.
  - split; [apply wf_init|]. simpl. split; [constructor|tauto].
  - intros c st st' _. apply separated_exec.
Qed.

(** A command leaves every list object other than the live one as it was. *)
Lemma exec_heap_other (c : command) (st : App) (r : nat) :
  allocated st ->
  (r < length (heap st))%nat ->
  r <> images st ->
  deref (heap (final (exec c st))) r = deref (heap st) r.
Proof.
  intros Hal Hr Hne. unfold allocated in Hal.
  assert (Hmut : forall l x,
            deref ((<[images st := l]> (heap st ++ [frames st])) ++ [x]) r
            = deref (heap st) r).
  { intros l x.
    rewrite deref_alloc_old by (rewrite length_insert, length_app; simpl; lia).
    rewrite deref_insert_ne by auto. now apply deref_alloc_old. }
  destruct c; cbn [exec final].
  - pose proof (add_images_eq files st Hal) as Heq. cbn zeta in Heq. rewrite Heq.
    simpl. apply Hmut.
  - destruct (Z.eq_dec (lw_current (image_list (ui st))) (-1)) as [E|E].
    + unfold remove_selected_frame. rewrite E. reflexivity.
    + destruct (Py.del (frames st) (lw_current (image_list (ui st)))) as [l|] eqn:Hdel.
      * pose proof (remove_selected_frame_eq st l Hal E Hdel) as Heq. cbn zeta in Heq.
        rewrite Heq. simpl. apply Hmut.
      * unfold remove_selected_frame, copy, alloc.
        apply Z.eqb_neq in E. rewrite E. cbn [negb].
        rewrite deref_alloc_old by assumption.
        unfold frames in Hdel. rewrite Hdel. simpl. now apply deref_alloc_old.
  - unfold undo. destruct (undo_stack st) as [|[k [o n]] rest]; [reflexivity|].
    now rewrite show_image_heap.
  - unfold redo. destruct (redo_stack st) as [|[k [o n]] rest]; [reflexivity|].
    now rewrite show_image_heap.
  - unfold next_frame. destruct Py.mod_; simpl; [now rewrite show_image_heap|reflexivity].
  - unfold prev_frame. destruct Py.mod_; simpl; [now rewrite show_image_heap|reflexivity].
  - unfold toggle_play. destruct (is_playing st); [reflexivity|].
    destruct Py.floordiv; reflexivity.
  - destruct (play_timer st); [|reflexivity].
    unfold next_frame. destruct Py.mod_; simpl; [now rewrite show_image_heap|reflexivity].
  - unfold on_select_image. destruct (_ && _); [|reflexivity]. now rewrite show_image_heap.
  - destruct (move_row_cases from to current st) as [->|(items & -> & _)]; reflexivity.
  - unfold update_fps. destruct Py.int_of_str; reflexivity.
  - reflexivity.
  - reflexivity.
Qed.

(** X12.  In a reachable state the snapshot-before of an entry on the
    undo stack is never the live list [self.images], and no command
    changes its contents; more generally a command changes the contents
    of no snapshot on either stack other than the one [self.images]
    currently is. *)
Theorem snapshot_before_never_mutated (st : App) (c : command) :
  reachable st ->
  (forall e, In e (undo_stack st) ->
     old_state e <> images st /\
     deref (heap (final (exec c st))) (old_state e) = deref (heap st) (old_state e)) /\
  (forall e, In e (undo_stack st ++ redo_stack st) ->
     (old_state e <> images st ->
      deref (heap (final (exec c st))) (old_state e) = deref (heap st) (old_state e)) /\
     (new_state e <> images st ->
      deref (heap (final (exec c st))) (new_state e) = deref (heap st) (new_state e))).
Proof.
  intros Hr. destruct (reachable_separated st Hr) as ((Hal & Hu & Hrd) & Hnd & Hni).
  assert (Hlt : forall e, In e (undo_stack st ++ redo_stack st) ->
                          (old_state e < length (heap st))%nat /\
                          (new_state e < length (heap st))%nat).
  { intros e Hin. apply in_app_or in Hin.
    destruct Hin as [Hin|Hin]; apply list_elem_of_In in Hin.
    - rewrite Forall_forall in Hu. apply (Hu e Hin).
    - rewrite Forall_forall in Hrd. apply (Hrd e Hin). }
  split.
  - intros e Hin.
    assert (Hne : old_state e <> images st).
    { intros E. apply Hni. rewrite <- E. now apply in_map. }
    split; [exact Hne|].
    apply exec_heap_other; auto. apply Hlt. apply in_or_app. now left.
  - intros e Hin. destruct (Hlt e Hin) as [Ho Hn].
    split; intros Hne; apply exec_heap_other; auto.
Qed.

Lemma snapshot_before_never_mutated_witness :
  let st := final (run [AddImages ["a"]%string; Undo; Redo] init) in
  let c := AddImages ["b"]%string in
  undo_stack st <> [] /\
  (forall e, In e (undo_stack st) ->
     old_state e <> images st /\
     deref (heap (final (exec c st))) (old_state e) = deref (heap st) (old_state e)) /\
  (forall e, In e (undo_stack st ++ redo_stack st) ->
     (old_state e <> images st ->
      deref (heap (final (exec c st))) (old_state e) = deref (heap st) (old_state e)) /\
     (new_state e <> images st ->
      deref (heap (final (exec c st))) (new_state e) = deref (heap st) (new_state e))).
Proof.
  intros st c. split; [vm_compute; discriminate|].
  apply (snapshot_before_never_mutated st c).
  exists [AddImages ["a"]%string; Undo; Redo]. vm_compute. reflexivity.
Defined.

(** ** Export: the shape of a run of [create_gif] *)

Lemma create_gif_cases (world : World) (st : App) :
  (frames st = [] /\
   create_gif world st =
     (Return st,
      [QMessageBox_warning "No Images" "Please select images before creating a GIF."])) \/
  (frames st <> [] /\ getSaveFileName world = EmptyString /\
   create_gif world st = (Return st, [save_dialog_event st])) \/
  (frames st <> [] /\ getSaveFileName world <> EmptyString /\
   exists r imgs st1 ev1,
     process_frames world (set_progress true 0 st) 0 (frames st) [] = (r, imgs, st1, ev1) /\
     ((exists e, r = Some e /\
         create_gif world st = (Raise e st1, save_dialog_event st :: ev1)) \/
      (r = None /\ imgs = [] /\
         create_gif world st = (Return st1, save_dialog_event st :: ev1)) \/
      (r = None /\ imgs <> [] /\ mimsave_raises world = true /\
         create_gif world st =
           (Raise Py.OSError st1,
            save_dialog_event st :: ev1 ++
            mimsave_call st1 (Py.lower (output_format_combo (ui st)))
              (getSaveFileName world) imgs)) \/
      (r = None /\ imgs <> [] /\ mimsave_raises world = false /\
         create_gif world st =
           (Return (set_progress (negb (success_box_outlasts_timer world)) 100 st1),
            save_dialog_event st :: ev1 ++
            mimsave_call st1 (Py.lower (output_format_combo (ui st)))
              (getSaveFileName world) imgs ++ success_events world st)))).
Proof.
  unfold create_gif, save_dialog_event, success_events.
  destruct (frames st) as [|f0 fs] eqn:Hfr; [left; auto|].
  right. cbn zeta.
  destruct (String.eqb (getSaveFileName world) EmptyString) eqn:Es.
  - left. apply String.eqb_eq in Es. repeat split; auto; discriminate.
  - right. apply String.eqb_neq in Es. split; [discriminate|]. split; [exact Es|].
    destruct (process_frames world (set_progress true 0 st) 0 (f0 :: fs) [])
      as [[[r imgs] st1] ev1] eqn:Hloop.
    exists r, imgs, st1, ev1. split; [reflexivity|].
    destruct r as [e|].
    + left. exists e. auto.
    + right. destruct imgs as [|im ims].
      * left. auto.
      * right. destruct (mimsave_raises world).
        -- left. repeat split; auto; discriminate.
        -- right. repeat split; auto; discriminate.
Qed.

Lemma process_frame_indep (world : World) (st : App) (pb : ProgressBar) (i j : Z)
    (file_name : string) :
  process_frame world (with_ui (with_progress_bar pb (ui st)) st) i file_name
  = process_frame world st j file_name.
Proof. reflexivity. Qed.

(** The loop changes nothing but the progress bar, makes one image of
    each file in turn, and stops at the first file that fails. *)
Lemma process_frames_run (world : World) (files : list string) :
  forall (st : App) (pb : ProgressBar) (i : Z) (acc : list Img) r imgs st' ev,
    process_frames world (with_ui (with_progress_bar pb (ui st)) st) i files acc
      = (r, imgs, st', ev) ->
    (exists pb', st' = with_ui (with_progress_bar pb' (ui st)) st) /\
    (r = None ->
     exists new, imgs = acc ++ new /\ Forall2 (frame_of world st) files new) /\
    ((exists f e, In f files /\ fst (process_frame world st 0 f) = inl e) -> r <> None).
Proof.
  induction files as [|f rest IH]; intros st pb i acc r imgs st' ev; simpl.
  - intros [= <- <- <- <-]. split; [now exists pb|]. split.
    + intros _. exists []. rewrite app_nil_r. split; [reflexivity|constructor].
    + intros (f & e & [] & _).
  - rewrite (process_frame_indep world st pb i 0 f).
    destruct (process_frame world st 0 f) as [[e|img] ev1] eqn:Hp.
    + intros [= <- <- <- <-]. split; [now exists pb|]. split; [discriminate|].
      intros _. discriminate.
    + destruct (progress i _ 50) as [e|v].
      * intros [= <- <- <- <-]. split; [now exists pb|]. split; [discriminate|].
        intros _. discriminate.
      * change (set_progress (pb_visible (progress_bar (ui (with_ui (with_progress_bar pb (ui st)) st)))) v
                  (with_ui (with_progress_bar pb (ui st)) st))
          with (with_ui (with_progress_bar {| pb_visible := pb_visible pb; pb_value := v |}
                           (ui st)) st).
        destruct (process_frames world _ (i + 1) rest (acc ++ [img]))
          as [[[r2 imgs2] st2] ev2] eqn:Hrec.
        intros [= <- <- <- <-].
        apply IH in Hrec as (Hst & Himgs & Hfail).
        split; [exact Hst|]. split.
        -- intros Hr. destruct (Himgs Hr) as (new & -> & Hall).
           exists (img :: new). rewrite <- app_assoc. split; [reflexivity|].
           constructor; [|exact Hall]. unfold frame_of. now rewrite Hp.
        -- intros (f' & e & [<-|Hin] & He).
           ++ rewrite Hp in He. discriminate.
           ++ apply Hfail. eauto.
Qed.

Lemma st_eta (st : App) :
  st = with_ui (with_progress_bar (progress_bar (ui st)) (ui st)) st.
Proof. destruct st as [h im ci f ip pt us rs u]. destruct u. reflexivity. Qed.

(** X13.  With the play timer stopped and no input reaching the window
    while the export runs, whatever the dialogs and codecs answer, and
    whether it returns or raises, [create_gif] leaves the application
    state as it was but for the progress bar. *)
Theorem export_touches_only_progress_bar (world : World) (st : App) :
  play_timer st = None ->
  exists pb,
    final (fst (create_gif world st)) = with_ui (with_progress_bar pb (ui st)) st.
Proof.
  intros _.
  destruct (create_gif_cases world st)
    as [(_ & ->)|[(_ & _ & ->)|(_ & _ & r & imgs & st1 & ev1 & Hloop & Hc)]].
  - eexists. apply st_eta.
  - eexists. apply st_eta.
  - apply (process_frames_run world (frames st) st {| pb_visible := true; pb_value := 0 |})
      in Hloop as ((pb' & ->) & _).
    destruct Hc as [(e & _ & ->)|[(_ & _ & ->)|[(_ & _ & _ & ->)|(_ & _ & _ & ->)]]];
      simpl; eexists; reflexivity.
Qed.

Lemma export_touches_only_progress_bar_witness :
  let st := final (run [AddImages ["a.png"; "b.dng"]%string; TogglePlay; Tick;
                        TogglePlay] init) in
  current_image_index st = 1 /\
  exists pb,
    final (fst (create_gif example_world st))
    = with_ui (with_progress_bar pb (ui st)) st.
Proof.
  intros st. split; [vm_compute; reflexivity|].
  apply (export_touches_only_progress_bar example_world st).
  vm_compute. reflexivity.
Defined.

Lemma mimsave_call_events (st : App) (fmt0 out0 : string) (imgs0 : list Img)
    (out : string) (imgs : list Img) (fmt : string) (kw : list (string * pyval)) :
  In (imageio_mimsave out imgs fmt kw) (mimsave_call st fmt0 out0 imgs0) ->
  out = out0 /\ imgs = imgs0 /\ fmt = fmt0 /\
  (fmt = "gif"%string \/ fmt = "webp"%string) /\
  In ("fps"%string, VInt (fps st)) kw /\
  In ("loop"%string, VInt (loop_count_spin (ui st))) kw /\
  (fmt = "gif"%string -> optimize_toggle (ui st) = false ->
   kw = [("fps", VInt (fps st)); ("loop", VInt (loop_count_spin (ui st)))]%string) /\
  (fmt = "webp"%string ->
   kw = [("fps", VInt (fps st)); ("loop", VInt (loop_count_spin (ui st)));
         ("quality", VInt (sl_value (quality_slider (ui st))))]%string).
Proof.
  unfold mimsave_call.
  destruct (String.eqb fmt0 "gif") eqn:Eg.
  - apply String.eqb_eq in Eg. subst fmt0.
    destruct (optimize_toggle (ui st)); intros [[= <- <- <- <-]|[]];
      repeat split; auto; simpl; auto; discriminate.
  - destruct (String.eqb fmt0 "webp") eqn:Ew; [|intros []].
    apply String.eqb_eq in Ew. subst fmt0.
    intros [[= <- <- <- <-]|[]]; repeat split; auto; simpl; auto; discriminate.
Qed.

Lemma frame_event_is_mimsave (ev : list event) (e : event) :
  Forall frame_event ev -> In e ev -> is_mimsave e = false.
Proof.
  intros Hall Hin. rewrite Forall_forall in Hall.
  apply list_elem_of_In in Hin. apply Hall in Hin.
  destruct e; try contradiction; reflexivity.
Qed.

(** Where an encoder call in the trace of [create_gif] comes from. *)
Lemma create_gif_mimsave (world : World) (st : App) (e : event) :
  In e (snd (create_gif world st)) ->
  is_mimsave e = true ->
  exists pb imgs,
    In e (mimsave_call (with_ui (with_progress_bar pb (ui st)) st)
            (Py.lower (output_format_combo (ui st))) (getSaveFileName world) imgs) /\
    Forall2 (frame_of world st) (frames st) imgs.
Proof.
  intros Hin Hm.
  destruct (create_gif_cases world st)
    as [(_ & Hc)|[(_ & _ & Hc)|(_ & _ & r & imgs & st1 & ev1 & Hloop & Hc)]].
  - rewrite Hc in Hin. simpl in Hin. destruct Hin as [<-|[]]. discriminate.
  - rewrite Hc in Hin. simpl in Hin. destruct Hin as [<-|[]]. discriminate.
  - pose proof Hloop as Hspec. apply process_frames_spec in Hspec as (Hev & _).
    apply (process_frames_run world (frames st) st {| pb_visible := true; pb_value := 0 |})
      in Hloop as ((pb' & ->) & Himgs & _).
    assert (Hnot : ~ In e ev1).
    { intros H. rewrite (frame_event_is_mimsave ev1 e Hev H) in Hm. discriminate. }
    destruct Hc as [(e' & _ & Hc)|[(_ & _ & Hc)|[(Hr & _ & _ & Hc)|(Hr & _ & _ & Hc)]]];
      rewrite Hc in Hin; simpl in Hin; destruct Hin as [<-|Hin]; try discriminate;
      try contradiction.
    + apply in_app_or in Hin as [Hin|Hin]; [contradiction|].
      destruct (Himgs Hr) as (new & -> & Hall). exists pb', new. auto.
    + apply in_app_or in Hin as [Hin|Hin]; [contradiction|].
      apply in_app_or in Hin as [Hin|Hin].
      * destruct (Himgs Hr) as (new & -> & Hall). exists pb', new. auto.
      * unfold success_events in Hin. simpl in Hin.
        destruct Hin as [<-|[<-|[]]]; discriminate.
Qed.




(** X15.  Every encoder call of [create_gif] is for "gif" or "webp" and
    carries [fps] and [loop] as set in the window; for "gif" without the
    optimize option these are the only keyword arguments, and for "webp"
    the quality of the slider is the only further one. *)
Theorem export_passes_rate_and_loop_count (world : World) (st : App)
    (out : string) (imgs : list Img) (fmt : string) (kw : list (string * pyval)) :
  In (imageio_mimsave out imgs fmt kw) (snd (create_gif world st)) ->
  (fmt = "gif"%string \/ fmt = "webp"%string) /\
  In ("fps"%string, VInt (fps st)) kw /\
  In ("loop"%string, VInt (loop_count_spin (ui st))) kw /\
  (fmt = "gif"%string -> optimize_toggle (ui st) = false ->
   kw = [("fps", VInt (fps st)); ("loop", VInt (loop_count_spin (ui st)))]%string) /\
  (fmt = "webp"%string ->
   kw = [("fps", VInt (fps st)); ("loop", VInt (loop_count_spin (ui st)));
         ("quality", VInt (sl_value (quality_slider (ui st))))]%string).
Proof.
  intros Hin.
  destruct (create_gif_mimsave world st _ Hin eq_refl) as (pb & imgs' & Hcall & _).
  apply mimsave_call_events in Hcall as (_ & _ & _ & H). exact H.
Qed.

Lemma export_passes_rate_and_loop_count_witness :
  let st := final (run [AddImages ["a.png"]%string; UpdateFps "12";
                        SetOptions false "Original" 3 "WebP"] init) in
  let world := {| getSaveFileName := "out.webp";
                  rawpy_decode := rawpy_decode example_world;
                  image_open := image_open example_world;
                  thumbnail_size := thumbnail_size example_world;
                  mimsave_raises := false;
                  success_box_outlasts_timer := false;
                  os_path_seps := os_path_seps example_world;
                  image_save_raises := image_save_raises example_world;
                  exiftool_found := true |} in
  let kw := [("fps", VInt 12); ("loop", VInt 3); ("quality", VInt 85)]%string in
  ("webp"%string = "gif"%string \/ "webp"%string = "webp"%string) /\
  In ("fps"%string, VInt (fps st)) kw /\
  In ("loop"%string, VInt (loop_count_spin (ui st))) kw /\
  ("webp"%string = "gif"%string -> optimize_toggle (ui st) = false ->
   kw = [("fps", VInt (fps st)); ("loop", VInt (loop_count_spin (ui st)))]%string) /\
  ("webp"%string = "webp"%string ->
   kw = [("fps", VInt (fps st)); ("loop", VInt (loop_count_spin (ui st)));
         ("quality", VInt (sl_value (quality_slider (ui st))))]%string).
Proof.
  intros st world kw.
  apply (export_passes_rate_and_loop_count world st "out.webp"
           [{| mode := "RGB"; size := (640, 480) |}] "webp" kw).
  vm_compute. repeat (first [left; reflexivity | right]).
Defined.

Lemma decode_fails_process_frame (world : World) (st : App) (f : string) :
  fst (decode world f) = None ->
  fst (process_frame world st 0 f) = inl Py.OSError.
Proof.
  unfold process_frame. destruct (decode world f) as [[im|] ev]; simpl; [discriminate|].
  reflexivity.
Qed.

(** X16.  If the decode of some frame of the project fails and a path
    was picked in the save dialog, [create_gif] raises, never calls the
    encoder and never shows the success message. *)
Theorem export_aborts_on_decode_failure (world : World) (st : App) (f : string) :
  In f (frames st) ->
  fst (decode world f) = None ->
  getSaveFileName world <> EmptyString ->
  (exists e st', fst (create_gif world st) = Raise e st') /\
  forall ev, In ev (snd (create_gif world st)) ->
    is_mimsave ev = false /\
    forall title text, ev <> QMessageBox_information title text.
Proof.
  intros Hin Hdec Hname.
  destruct (create_gif_cases world st)
    as [(He & _)|[(_ & Hn & _)|(_ & _ & r & imgs & st1 & ev1 & Hloop & Hc)]].
  - rewrite He in Hin. destruct Hin.
  - contradiction.
  - pose proof Hloop as Hspec. apply process_frames_spec in Hspec as (Hev & _).
    apply (process_frames_run world (frames st) st {| pb_visible := true; pb_value := 0 |})
      in Hloop as (_ & _ & Hfail).
    assert (Hr : r <> None).
    { apply Hfail. exists f, Py.OSError. split; [exact Hin|].
      now apply decode_fails_process_frame. }
    destruct Hc as [(e' & _ & Hc)|[(Hn & _)|[(Hn & _)|(Hn & _)]]]; try contradiction.
    rewrite Hc. simpl. split; [eauto|].
    intros ev [<-|Hi].
    + split; [reflexivity|]. unfold save_dialog_event. discriminate.
    + split; [eapply frame_event_is_mimsave; eauto|].
      intros title text ->. rewrite Forall_forall in Hev.
      apply list_elem_of_In in Hi. apply Hev in Hi. exact Hi.
Qed.

Lemma export_aborts_on_decode_failure_witness :
  let st := add_images ["a.png"; "broken.png"; "c.png"]%string init in
  let world := {| getSaveFileName := "out.gif";
                  rawpy_decode := rawpy_decode example_world;
                  image_open := fun f => if String.eqb f "broken.png" then None
                                         else image_open example_world f;
                  thumbnail_size := thumbnail_size example_world;
                  mimsave_raises := false;
                  success_box_outlasts_timer := false;
                  os_path_seps := os_path_seps example_world;
                  image_save_raises := image_save_raises example_world;
                  exiftool_found := true |} in
  (exists e st', fst (create_gif world st) = Raise e st') /\
  forall ev, In ev (snd (create_gif world st)) ->
    is_mimsave ev = false /\
    forall title text, ev <> QMessageBox_information title text.
Proof.
  intros st world.
  apply (export_aborts_on_decode_failure world st "broken.png").
  - vm_compute. repeat (first [left; reflexivity | right]).
  - reflexivity.
  - discriminate.
Defined.

Lemma apply_resolution_no_decode resolution img r ev :
  apply_resolution resolution img = (r, ev) ->
  Forall (fun e => is_decode_event e = false) ev.
Proof.
  unfold apply_resolution. repeat break_match; intros [= <- <-]; repeat constructor.
Qed.

Lemma process_frame_events_split (world : World) (st : App) (i : Z) (f : string) r ev :
  process_frame world st i f = (r, ev) ->
  exists rest,
    ev = snd (decode world f) ++ rest /\
    Forall (fun e => is_decode_event e = false) rest.
Proof.
  unfold process_frame.
  destruct (decode world f) as [[im|] ev0]; simpl;
    [|intros [= <- <-]; exists []; rewrite app_nil_r; split; [reflexivity|constructor]].
  destruct (String.eqb (mode im) "RGBA"); cbn iota beta zeta.
  all: match goal with
       | |- context [apply_resolution ?a ?b] =>
           destruct (apply_resolution a b) as [[e0|img2] ev2] eqn:Hr;
           apply apply_resolution_no_decode in Hr
       end.
  all: try destruct (optimize_toggle (ui st)).
  all: intros [= <- <-]; eexists; split; [reflexivity|].
  all: repeat first [assumption | apply Forall_app; split | constructor].
Qed.

Lemma decode_events_of (world : World) (f : string) (e : event) :
  In e (snd (decode world f)) -> decode_event_of f e.
Proof.
  unfold decode, decode_event_of.
  destruct (Py.endswith (Py.lower f) ".dng"); simpl; intros [<-|[]]; reflexivity.
Qed.

Lemma process_frames_decode_events (world : World) (files : list string) :
  forall st i acc r imgs st' ev e,
    process_frames world st i files acc = (r, imgs, st', ev) ->
    In e ev -> is_decode_event e = true ->
    exists f, In f files /\ decode_event_of f e.
Proof.
  induction files as [|f rest IH]; intros st i acc r imgs st' ev e; simpl.
  - intros [= <- <- <- <-] Hin. destruct Hin.
  - assert (Hhead : forall r1 ev1, process_frame world st i f = (r1, ev1) ->
                      In e ev1 -> is_decode_event e = true ->
                      exists f', (f = f' \/ In f' rest) /\ decode_event_of f' e).
    { intros r1 ev1 Hp Hin Hd.
      destruct (process_frame_events_split world st i f r1 ev1 Hp) as (more & -> & Hno).
      apply in_app_or in Hin as [Hin|Hin].
      - exists f. split; [now left | now apply (decode_events_of world)].
      - exfalso. rewrite Forall_forall in Hno. apply list_elem_of_In in Hin.
        apply Hno in Hin. rewrite Hin in Hd. discriminate Hd. }
    destruct (process_frame world st i f) as [[e0|img] ev1] eqn:Hp.
    + intros [= <- <- <- <-]. now apply (Hhead _ _ eq_refl).
    + destruct (progress i _ 50) as [e1|v].
      * intros [= <- <- <- <-]. now apply (Hhead _ _ eq_refl).
      * destruct (process_frames world _ (i + 1) rest (acc ++ [img]))
          as [[[r2 imgs2] st2] ev2] eqn:Hrec.
        intros [= <- <- <- <-] Hin Hd.
        apply in_app_or in Hin as [Hin|Hin]; [now apply (Hhead _ _ eq_refl)|].
        destruct (IH _ _ _ _ _ _ _ _ Hrec Hin Hd) as (f' & Hf' & He). eauto.
Qed.

(** X17.  Every decode [create_gif] asks for is of a file of the
    project, through rawpy when the name ends in ".dng" in any case of
    letters and through [Image.open] otherwise. *)
Theorem export_decodes_only_project_files (world : World) (st : App) (e : event) :
  In e (snd (create_gif world st)) ->
  is_decode_event e = true ->
  exists f, In f (frames st) /\ decode_event_of f e.
Proof.
  intros Hin Hd.
  destruct (create_gif_cases world st)
    as [(_ & Hc)|[(_ & _ & Hc)|(_ & _ & r & imgs & st1 & ev1 & Hloop & Hc)]].
  - rewrite Hc in Hin. simpl in Hin. destruct Hin as [<-|[]]. discriminate.
  - rewrite Hc in Hin. simpl in Hin. destruct Hin as [<-|[]]. discriminate.
  - assert (Hcall : forall s imgs0, In e (mimsave_call s (Py.lower (output_format_combo (ui st)))
                                            (getSaveFileName world) imgs0) -> False).
    { intros s imgs0. unfold mimsave_call.
      destruct (String.eqb _ "gif");
        [destruct (optimize_toggle _)|destruct (String.eqb _ "webp")];
        simpl; intros H; repeat (destruct H as [<-|H]; [discriminate Hd|]); contradiction. }
    assert (Hloop' : In e ev1 -> exists f, In f (frames st) /\ decode_event_of f e).
    { intros H. eapply process_frames_decode_events; eauto. }
    destruct Hc as [(e' & _ & Hc)|[(_ & _ & Hc)|[(_ & _ & _ & Hc)|(_ & _ & _ & Hc)]]];
      rewrite Hc in Hin; simpl in Hin; destruct Hin as [<-|Hin]; try discriminate Hd;
      auto.
    + apply in_app_or in Hin as [Hin|Hin]; [auto|]. exfalso. eapply Hcall; eauto.
    + apply in_app_or in Hin as [Hin|Hin]; [auto|].
      apply in_app_or in Hin as [Hin|Hin]; [exfalso; eapply Hcall; eauto|].
      unfold success_events in Hin. simpl in Hin.
      destruct Hin as [<-|[<-|[]]]; discriminate.
Qed.

Lemma export_decodes_only_project_files_witness :
  let st := add_images ["a.png"; "SHOT.DNG"]%string init in
  exists f, In f (frames st) /\ decode_event_of f (rawpy_postprocess "SHOT.DNG" []).
Proof.
  intros st.
  apply (export_decodes_only_project_files example_world st).
  - vm_compute. repeat (first [left; reflexivity | right]).
  - reflexivity.
Defined.

(** ** More binary64 facts *)

Lemma F_mul_comm (x y : spec_float) : F.mul x y = F.mul y x.
Proof.
  unfold F.mul, SFmul.
  destruct x as [sx|sx| |sx mx ex], y as [sy|sy| |sy my ey];
    try reflexivity; try (now rewrite (xorb_comm sx sy)).
  now rewrite (xorb_comm sx sy), (Pos.mul_comm mx my), (Z.add_comm ex ey).
Qed.

Lemma progress_as_new_width (i n k : Z) : progress i n k = new_width k n (i + 1).
Proof.
  unfold progress, new_width. destruct (F.truediv (i + 1) n); [|reflexivity].
  now rewrite F_mul_comm.
Qed.

(** Below [2^44] frames the progress value is always defined. *)
Lemma progress_defined (i n : Z) :
  0 <= i < n -> n < 2 ^ 44 -> exists v, progress i n 50 = inr v.
Proof.
  intros Hi Hn. rewrite progress_as_new_width.
  assert (Hn' : n < 17592186044416) by exact Hn.
  assert (H53 : 0 < n < 2 ^ 53) by (change (2 ^ 53) with 9007199254740992; lia).
  assert (H50 : (i + 1) * 50 < 2 ^ 50) by (change (2 ^ 50) with 1125899906842624; lia).
  destruct (new_width_bounds 50 n (i + 1) ltac:(lia) H53 ltac:(lia) H50) as (v & Hv & _).
  now exists v.
Qed.

(** X18.  For the frame at position [i] of [n < 2^44] frames, the value
    [int((i + 1) / n * 50)] set on the progress bar is defined, lies
    between 0 and 50, and is within one of [50 * (i + 1) / n] from
    below. *)
Theorem progress_stays_within_half (i n : Z) :
  0 <= i < n ->
  n < 2 ^ 44 ->
  exists v,
    progress i n 50 = inr v /\
    0 <= v <= 50 /\
    50 * (i + 1) - n <= n * v <= 50 * (i + 1).
Proof.
  intros Hi Hn. rewrite progress_as_new_width.
  assert (Hn' : n < 17592186044416) by exact Hn.
  assert (H53 : 0 < n < 2 ^ 53) by (change (2 ^ 53) with 9007199254740992; lia).
  assert (H50 : (i + 1) * 50 < 2 ^ 50) by (change (2 ^ 50) with 1125899906842624; lia).
  destruct (new_width_bounds 50 n (i + 1) ltac:(lia) H53 ltac:(lia) H50) as (v & Hv & Hb).
  exists v. split; [exact Hv|]. split; [nia|lia].
Qed.

Lemma progress_stays_within_half_witness :
  exists v,
    progress 1 3 50 = inr v /\
    0 <= v <= 50 /\
    50 * (1 + 1) - 3 <= 3 * v <= 50 * (1 + 1).
Proof.
  apply (progress_stays_within_half 1 3); [lia | reflexivity].
Defined.

(** ** A successful export *)

Lemma frame_of_original (world : World) (st : App) (f : string) :
  resolution_combo (ui st) = "Original"%string ->
  fst (decode world f) <> None ->
  exists img, frame_of world st f img.
Proof.
  intros Hres Hdec. unfold frame_of, process_frame.
  destruct (decode world f) as [[im|] ev]; simpl in Hdec; [|contradiction].
  rewrite Hres. unfold apply_resolution. simpl String.eqb. cbn iota.
  destruct (String.eqb (mode im) "RGBA"); destruct (optimize_toggle (ui st));
    simpl; eexists; reflexivity.
Qed.

Lemma process_frames_succeed (world : World) (st : App) (files : list string) :
  Py.len (frames st) < 2 ^ 44 ->
  forall (pb : ProgressBar) (i : Z) (acc : list Img),
    (forall f, In f files -> exists img, frame_of world st f img) ->
    0 <= i ->
    i + Py.len files = Py.len (frames st) ->
    exists imgs st' ev,
      process_frames world (with_ui (with_progress_bar pb (ui st)) st) i files acc
        = (None, imgs, st', ev).
Proof.
  intros Hn. induction files as [|f rest IH]; intros pb i acc Hall Hi Hlen; simpl.
  - eauto.
  - rewrite (process_frame_indep world st pb i 0 f).
    destruct (Hall f ltac:(now left)) as (img & Himg). unfold frame_of in Himg.
    destruct (process_frame world st 0 f) as [r ev1]. simpl in Himg. subst r.
    change (frames (with_ui (with_progress_bar pb (ui st)) st)) with (frames st).
    unfold Py.len in Hlen. simpl length in Hlen.
    destruct (progress_defined i (Py.len (frames st))) as (v & ->);
      [unfold Py.len; lia | exact Hn |].
    change (set_progress (pb_visible pb) v (with_ui (with_progress_bar pb (ui st)) st))
      with (with_ui (with_progress_bar {| pb_visible := pb_visible pb; pb_value := v |}
                       (ui st)) st).
    destruct (IH {| pb_visible := pb_visible pb; pb_value := v |} (i + 1) (acc ++ [img]))
      as (imgs & st' & ev & ->).
    + intros f' Hf'. apply Hall. now right.
    + lia.
    + unfold Py.len. lia.
    + eauto.
Qed.

(** X19.  With the play timer stopped and no input reaching the window
    while the export runs, at least one frame (and fewer than [2^44]),
    resolution "Original", format "GIF" or "WebP", every
    file decoding, a path picked in the save dialog and an encoder that
    does not raise, [create_gif] returns with the progress bar at 100,
    hidden if the success box stayed open for the second the single shot
    takes and shown otherwise: after the save dialog it processes every
    frame, calls the encoder exactly once, on the images obtained, one
    per frame, and ends with the success message. *)
Theorem export_succeeds_at_original_resolution (world : World) (st : App) :
  play_timer st = None ->
  frames st <> [] ->
  Py.len (frames st) < 2 ^ 44 ->
  resolution_combo (ui st) = "Original"%string ->
  (output_format_combo (ui st) = "GIF"%string \/
   output_format_combo (ui st) = "WebP"%string) ->
  (forall f, In f (frames st) -> fst (decode world f) <> None) ->
  getSaveFileName world <> EmptyString ->
  mimsave_raises world = false ->
  exists imgs ev1 kw,
    create_gif world st =
      (Return (set_progress (negb (success_box_outlasts_timer world)) 100 st),
       save_dialog_event st :: ev1 ++
       imageio_mimsave (getSaveFileName world) imgs
         (Py.lower (output_format_combo (ui st))) kw
       :: success_events world st) /\
    Forall2 (frame_of world st) (frames st) imgs /\
    Forall frame_event ev1 /\
    length (List.filter is_mimsave (snd (create_gif world st))) = 1%nat.
Proof.
  intros _ Hne Hn Hres Hfmt Hdec Hname Hsave.
  destruct (process_frames_succeed world st (frames st) Hn
              {| pb_visible := true; pb_value := 0 |} 0 [])
    as (imgs0 & st0 & ev0 & Hok).
  { intros f Hf. apply frame_of_original; auto. }
  { lia. }
  { lia. }
  destruct (create_gif_cases world st)
    as [(He & _)|[(_ & Hn0 & _)|(_ & _ & r & imgs & st1 & ev1 & Hloop & Hc)]];
    try contradiction.
  change (set_progress true 0 st)
    with (with_ui (with_progress_bar {| pb_visible := true; pb_value := 0 |} (ui st)) st)
    in Hloop.
  rewrite Hok in Hloop. injection Hloop as <- <- <- <-.
  pose proof Hok as Hspec. apply process_frames_spec in Hspec as (Hev & _).
  apply process_frames_run in Hok as ((pb' & ->) & Himgs & _).
  destruct (Himgs eq_refl) as (new & E & Hall). simpl in E. subst imgs0.
  assert (Hcall : exists kw,
             mimsave_call st (Py.lower (output_format_combo (ui st)))
               (getSaveFileName world) new
             = [imageio_mimsave (getSaveFileName world) new
                  (Py.lower (output_format_combo (ui st))) kw]).
  { unfold mimsave_call. destruct Hfmt as [-> | ->]; simpl.
    - destruct (optimize_toggle (ui st)); eexists; reflexivity.
    - eexists; reflexivity. }
  destruct Hcall as (kw & Hcall).
  exists new, ev0, kw.
  destruct Hc as [(e' & Hr & _)|[(_ & Hi & _)|[(_ & _ & Hm & _)|(_ & _ & _ & Hc)]]].
  - discriminate.
  - subst new. inversion Hall as [E0|]; subst. now rewrite <- E0 in Hne.
  - rewrite Hm in Hsave. discriminate.
  - change (mimsave_call (with_ui (with_progress_bar pb' (ui st)) st))
      with (mimsave_call st) in Hc.
    rewrite Hcall in Hc. rewrite Hc.
    split; [reflexivity|]. split; [exact Hall|]. split; [exact Hev|].
    cbn [snd List.filter save_dialog_event is_mimsave].
    rewrite List.filter_app.
    assert (Hnone : List.filter is_mimsave ev0 = []).
    { clear -Hev. induction ev0 as [|e l IH]; [reflexivity|].
      apply Forall_cons in Hev as [He Hl]. simpl.
      destruct e; try contradiction; simpl; now apply IH. }
    rewrite Hnone. reflexivity.
Qed.

Lemma export_succeeds_at_original_resolution_witness :
  let st := add_images ["a.png"; "b.dng"]%string init in
  exists imgs ev1 kw,
    create_gif example_world st =
      (Return (set_progress (negb (success_box_outlasts_timer example_world)) 100 st),
       save_dialog_event st :: ev1 ++
       imageio_mimsave (getSaveFileName example_world) imgs
         (Py.lower (output_format_combo (ui st))) kw
       :: success_events example_world st) /\
    Forall2 (frame_of example_world st) (frames st) imgs /\
    Forall frame_event ev1 /\
    length (List.filter is_mimsave (snd (create_gif example_world st))) = 1%nat.
Proof.
  intros st. apply (export_succeeds_at_original_resolution example_world st).
  - reflexivity.
  - discriminate.
  - reflexivity.
  - reflexivity.
  - left. reflexivity.
  - intros f _. unfold decode. destruct (Py.endswith _ _); discriminate.
  - discriminate.
  - reflexivity.
Defined.

(** ** Scaling by one and a half is exact *)

Lemma iter_pos_shr_exact (p : positive) : forall q : Z,
  0 < q ->
  SpecFloat.iter_pos shr_1 p
    {| shr_m := q * 2 ^ Z.pos p; shr_r := false; shr_s := false |}
  = {| shr_m := q; shr_r := false; shr_s := false |}.
Proof.
  assert (H1 : forall q, 0 < q ->
            shr_1 {| shr_m := q * 2; shr_r := false; shr_s := false |}
            = {| shr_m := q; shr_r := false; shr_s := false |}).
  { intros q Hq. rewrite Z.mul_comm. destruct q as [|q|q]; try lia. reflexivity. }
  induction p as [p IH|p IH|]; intros q Hq; cbn [SpecFloat.iter_pos].
  - assert (Hp : 0 < 2 ^ Z.pos p) by (apply Z.pow_pos_nonneg; lia).
    replace (q * 2 ^ Z.pos p~1) with (q * 2 ^ Z.pos p * 2 ^ Z.pos p * 2).
    + rewrite H1 by nia. rewrite IH by nia. now rewrite IH.
    + rewrite (Pos2Z.inj_xI p).
      replace (2 * Z.pos p + 1) with (Z.pos p + Z.pos p + 1) by lia.
      rewrite !Z.pow_add_r by lia. change (2 ^ 1) with 2. ring.
  - assert (Hp : 0 < 2 ^ Z.pos p) by (apply Z.pow_pos_nonneg; lia).
    replace (q * 2 ^ Z.pos p~0) with (q * 2 ^ Z.pos p * 2 ^ Z.pos p).
    + rewrite IH by nia. now rewrite IH.
    + rewrite (Pos2Z.inj_xO p).
      replace (2 * Z.pos p) with (Z.pos p + Z.pos p) by lia.
      rewrite !Z.pow_add_r by lia. ring.
  - change (2 ^ 1) with 2. now apply H1.
Qed.

(** Rounding a mantissa that is 53 digits followed by zeros cuts the
    zeros and nothing else. *)
Lemma binary_round_aux_exact (s : bool) (q ex n : Z) :
  2 ^ 52 <= q < 2 ^ 53 ->
  0 <= n ->
  -1074 <= ex + n <= 971 ->
  binary_round_aux 53 1024 s (q * 2 ^ n) ex loc_Exact
  = S754_finite s (Z.to_pos q) (ex + n).
Proof.
  intros Hq Hn He.
  assert (Hpn : 0 < 2 ^ n) by (apply Z.pow_pos_nonneg; lia).
  assert (Hd : Zdigits2 (q * 2 ^ n) = 53 + n).
  { apply Zdigits2_unique; [|lia].
    replace (53 + n - 1) with (52 + n) by lia.
    rewrite !Z.pow_add_r by lia. nia. }
  assert (Hdq : Zdigits2 q = 53) by (apply Zdigits2_unique; [exact Hq|lia]).
  unfold binary_round_aux, shr_fexp. rewrite Hd.
  rewrite fexp_normal by lia.
  replace (53 + n + ex - 53 - ex) with n by lia.
  assert (Hshr : shr (shr_record_of_loc (q * 2 ^ n) loc_Exact) ex n
                 = ({| shr_m := q; shr_r := false; shr_s := false |}, ex + n)).
  { destruct n as [|p|p]; try lia.
    - simpl. rewrite Z.mul_1_r, Z.add_0_r. reflexivity.
    - simpl shr. simpl shr_record_of_loc. rewrite iter_pos_shr_exact by lia. reflexivity. }
  rewrite Hshr. cbn [loc_of_shr_record shr_m round_nearest_even].
  rewrite Hdq. rewrite fexp_normal by lia.
  replace (53 + (ex + n) - 53 - (ex + n)) with 0 by lia.
  simpl shr. destruct q as [|pq|pq]; try lia.
  simpl shr_m. cbv iota beta.
  replace (ex + n <=? 1024 - 53) with true by (symmetry; apply Z.leb_le; lia).
  reflexivity.
Qed.

(** [w * 1.5] is computed without rounding while [3 * w] has at most 53
    digits. *)
Lemma mul_one_and_a_half (w : Z) :
  0 < w -> 3 * w < 2 ^ 53 ->
  exists b,
    0 <= b <= 52 /\
    F.mul (F.of_int w) F.one_and_a_half
      = S754_finite false (Z.to_pos (3 * w * 2 ^ b)) (- (b + 1)).
Proof.
  intros Hw H3.
  destruct (of_int_spec w) as (a & Ha & Hr & ->); [lia|].
  assert (H15 : F.one_and_a_half = S754_finite false (Z.to_pos (3 * 2 ^ 51)) (-52))
    by (vm_compute; reflexivity).
  rewrite H15. unfold F.mul, F.prec, F.emax, SFmul. cbn [xorb].
  rewrite Pos2Z.inj_mul, !Z2Pos.id by lia.
  assert (Hpa : 0 < 2 ^ a) by (apply Z.pow_pos_nonneg; lia).
  assert (Hj : exists j, 1 <= j <= 2 /\ j <= a /\ 2 ^ 52 <= 3 * w * 2 ^ (a - j) < 2 ^ 53).
  { destruct (Z_lt_le_dec (3 * (w * 2 ^ a)) (2 ^ 54)) as [Hlt|Hge].
    - exists 1. assert (1 <= a).
      { destruct (Z.eq_dec a 0) as [->|]; [|lia]. simpl in Hr. lia. }
      assert (E : 2 ^ a = 2 ^ (a - 1) * 2).
      { change 2 with (2 ^ 1) at 3. rewrite <- Z.pow_add_r by lia. f_equal. lia. }
      rewrite E in Hr, Hlt. lia.
    - exists 2. assert (2 <= a).
      { destruct (Z.eq_dec a 0) as [->|]; [simpl in Hge; lia|].
        destruct (Z.eq_dec a 1) as [->|]; [simpl in Hge; lia|]. lia. }
      assert (E : 2 ^ a = 2 ^ (a - 2) * 4).
      { change 4 with (2 ^ 2). rewrite <- Z.pow_add_r by lia. f_equal. lia. }
      rewrite E in Hr, Hge. lia. }
  destruct Hj as (j & Hj & Hja & Hq).
  assert (EP : w * 2 ^ a * (3 * 2 ^ 51) = 3 * w * 2 ^ (a - j) * 2 ^ (51 + j)).
  { replace a with ((a - j) + j) at 1 by lia.
    rewrite !Z.pow_add_r by lia. ring. }
  rewrite EP.
  rewrite binary_round_aux_exact by lia.
  exists (a - j). split; [lia|]. f_equal. lia.
Qed.

(** X20.  For a raw file that decodes to a [w] by [h] image with
    [0 < w], [3 * w < 2^53] and [0 < h], [desqueeze_image] resizes to
    exactly [3 * w // 2] by [h] (the product [w * 1.5] is computed
    without rounding) and saves the result as TIFF under the path of the
    source with its extension, as [os.path.splitext] cuts it, replaced
    by "-desqueezed.tiff".  If that save succeeds and exiftool is found,
    the metadata are copied and the saved path is reported; if the save
    raises, or exiftool is not found, the failure is reported
    instead. *)
Theorem desqueeze_image_widens_by_half (world : World) (file_path : string) (img : Img) :
  rawpy_decode world file_path [("use_camera_wb", VBool true)]%string = Some img ->
  0 < fst (size img) ->
  3 * fst (size img) < 2 ^ 53 ->
  0 < snd (size img) ->
  let output_path :=
    (fst (Py.splitext (os_path_seps world) file_path) ++ "-desqueezed.tiff")%string in
  let decode_resize_save :=
    [rawpy_postprocess file_path [("use_camera_wb", VBool true)]%string;
     Image_resize (3 * fst (size img) / 2, snd (size img));
     Image_save output_path "TIFF"] in
  let run_exiftool :=
    subprocess_run ["exiftool"; "-TagsFromFile"; file_path; "-all:all";
                    "-overwrite_original"; "-m"; output_path]%string in
  (image_save_raises world output_path = false -> exiftool_found world = true ->
   desqueeze_image world file_path
   = decode_resize_save ++ [run_exiftool; print_saved output_path]) /\
  (image_save_raises world output_path = false -> exiftool_found world = false ->
   desqueeze_image world file_path
   = decode_resize_save ++ [run_exiftool; print_failed file_path]) /\
  (image_save_raises world output_path = true ->
   desqueeze_image world file_path = decode_resize_save ++ [print_failed file_path]).
Proof.
  intros Hdec Hw H3 Hh output_path decode_resize_save run_exiftool.
  subst decode_resize_save run_exiftool output_path.
  unfold desqueeze_image. rewrite Hdec.
  destruct (size img) as [w h] eqn:Hsize. simpl fst in *. simpl snd in *.
  destruct (mul_one_and_a_half w Hw H3) as (b & Hb & ->).
  assert (Hpb : 0 < 2 ^ b) by (apply Z.pow_pos_nonneg; lia).
  destruct (to_int_floor (3 * w * 2 ^ b) (- (b + 1)) (b + 1) 0) as (r & -> & Hr);
    [nia | lia | lia | lia |].
  assert (Er : r = 3 * w / 2).
  { rewrite Z.pow_add_r in Hr by lia. change (2 ^ 1) with 2 in Hr.
    change (2 ^ 0) with 1 in Hr.
    apply (Z.div_unique_pos _ _ _ (3 * w - 2 * r)); nia. }
  subst r.
  assert (H1 : 1 <= 3 * w / 2).
  { apply Z.div_le_lower_bound; lia. }
  replace (1 <=? 3 * w / 2) with true by (symmetry; apply Z.leb_le; lia).
  replace (1 <=? h) with true by (symmetry; apply Z.leb_le; lia).
  cbn [andb].
  destruct (Py.splitext (os_path_seps world) file_path) as [base ext]. cbn [fst].
  repeat split.
  - intros -> ->. reflexivity.
  - intros -> ->. reflexivity.
  - intros ->. reflexivity.
Qed.

Lemma desqueeze_image_widens_by_half_witness :
  let file_path := "shots/roll.1/a.dng"%string in
  let output_path := "shots/roll.1/a-desqueezed.tiff"%string in
  let world := {| getSaveFileName := getSaveFileName example_world;
                  rawpy_decode := rawpy_decode example_world;
                  image_open := image_open example_world;
                  thumbnail_size := thumbnail_size example_world;
                  mimsave_raises := false;
                  success_box_outlasts_timer := false;
                  os_path_seps := os_path_seps example_world;
                  image_save_raises := image_save_raises example_world;
                  exiftool_found := false |} in
  desqueeze_image example_world file_path =
    [rawpy_postprocess file_path [("use_camera_wb", VBool true)]%string;
     Image_resize (960, 480);
     Image_save output_path "TIFF";
     subprocess_run ["exiftool"; "-TagsFromFile"; file_path; "-all:all";
                     "-overwrite_original"; "-m"; output_path]%string;
     print_saved output_path] /\
  desqueeze_image world file_path =
    [rawpy_postprocess file_path [("use_camera_wb", VBool true)]%string;
     Image_resize (960, 480);
     Image_save output_path "TIFF";
     subprocess_run ["exiftool"; "-TagsFromFile"; file_path; "-all:all";
                     "-overwrite_original"; "-m"; output_path]%string;
     print_failed file_path].
Proof.
  intros file_path output_path world.
  destruct (desqueeze_image_widens_by_half example_world file_path
              {| mode := "RGB"; size := (640, 480) |})
    as (Hsaved & _ & _); [reflexivity | reflexivity | reflexivity | reflexivity |].
  destruct (desqueeze_image_widens_by_half world file_path
              {| mode := "RGB"; size := (640, 480) |})
    as (_ & Hfailed & _); [reflexivity | reflexivity | reflexivity | reflexivity |].
  split.
  - apply Hsaved; reflexivity.
  - apply Hfailed; reflexivity.
Defined.

(** ** The file dialog *)

(** X21.  [select_images] with a cancelled dialog (no file) changes
    nothing, the redo stack included.  When it does record a history
    entry, the entry is for a real change: its snapshot-after is its
    snapshot-before followed by the files, of which there is at least
    one, and the redo stack is emptied. *)
Theorem select_images_records_only_additions (files : list string) (st : App) :
  allocated st ->
  let st' := select_images files st in
  (files = [] -> st' = st) /\
  (undo_stack st' <> undo_stack st ->
   files <> [] /\
   redo_stack st' = [] /\
   exists e,
     undo_stack st' = e :: undo_stack st /\
     deref (heap st') (old_state e) = frames st /\
     deref (heap st') (new_state e) = frames st ++ files /\
     deref (heap st') (new_state e) <> deref (heap st') (old_state e)).
Proof.
  intros Hal st'. subst st'. split; [now intros ->|].
  destruct files as [|f rest]; cbn [select_images]; [congruence|]. intros _.
  destruct (add_images_spec (f :: rest) st Hal) as (_ & _ & Hu & Hr & Ho & Hn & _).
  split; [discriminate|]. split; [exact Hr|].
  eexists. split; [exact Hu|]. cbn [old_state new_state fst snd].
  split; [exact Ho|]. split; [exact Hn|].
  rewrite Ho, Hn. intros E.
  apply (f_equal (@length string)) in E. rewrite length_app in E. simpl in E. lia.
Qed.

Lemma select_images_records_only_additions_witness :
  let st := undo (add_images ["a"]%string init) in
  let st' := select_images ["b"; "c"]%string st in
  redo_stack st <> [] /\
  (["b"; "c"]%string = [] -> st' = st) /\
  (undo_stack st' <> undo_stack st ->
   ["b"; "c"]%string <> [] /\
   redo_stack st' = [] /\
   exists e,
     undo_stack st' = e :: undo_stack st /\
     deref (heap st') (old_state e) = frames st /\
     deref (heap st') (new_state e) = frames st ++ ["b"; "c"]%string /\
     deref (heap st') (new_state e) <> deref (heap st') (old_state e)).
Proof.
  intros st st'. split; [discriminate|].
  apply (select_images_records_only_additions ["b"; "c"]%string st).
  unfold allocated. simpl. lia.
Defined.
